(** * Vendas_Diarias: the VTEX export scripts, embedded and verified

    A shallow embedding of [lista_sellers.py] (class [VTEXSellersExporter])
    and [pedidos_itens.py], with the properties of their pagination,
    deduplication, retry, row normalisation and time-window code.

    Conventions of the embedding.
    - A JSON document, as [json.loads] hands it to the scripts, is a [value].
      Numbers are the integers; the float values of JSON are outside the
      model.  Strings are UTF-8 byte strings.
    - A Python [dict] read from JSON is an association list in insertion
      order (iteration order matters to the row normaliser); the [row] dict
      handed to [csv.DictWriter], which the writer only looks up by column
      name, is a [gmap]; the [set] of seen identifiers is a [gset] of hash
      keys.
    - The HTTP transport is a black box: a run consumes a script of
      responses, one per [requests.get], and logs the requests it issues.
      A run that needs a response the script does not hold is [Starved]:
      the program is still waiting, it has not returned.
    - An uncaught Python exception is the outcome [Raise]; console output
      and [time.sleep] are not modelled. *)

From Stdlib Require Import ZArith List Bool Ascii String DecimalString Lia.
From stdpp Require Import base option list strings gmap.

Import ListNotations.
Local Open Scope Z_scope.

(* stdpp's [set_solver] clears hypotheses by name and warns when it misses. *)
Set Warnings "-clear-no-such-hyp".
Local Open Scope string_scope.

(** ** Python values and the operations the scripts apply to them *)
Module Py.

#[warnings="-register-all"]
Inductive value : Type :=
| VNone
| VBool (b : bool)
| VInt (z : Z)
| VStr (s : string)
| VList (l : list value)
| VDict (d : list (string * value)).

(** The exceptions the scripts can meet.  [RequestException] stands for the
    whole [requests.exceptions] hierarchy ([HTTPError], [ConnectionError],
    [Timeout], [JSONDecodeError], ...), which the scripts never tell apart. *)
Inductive exn : Type :=
| TypeError
| AttributeError
| ValueError
| OverflowError
| KeyError
| RequestException.

(** [bool(v)] *)
Definition truthy (v : value) : bool :=
  match v with
  | VNone => false
  | VBool b => b
  | VInt z => negb (Z.eqb z 0)
  | VStr s => negb (String.eqb s "")
  | VList l => match l with [] => false | _ => true end
  | VDict d => match d with [] => false | _ => true end
  end.

(** [a or b] *)
Definition py_or (a b : value) : value := if truthy a then a else b.

(** [isinstance(v, dict)] and [isinstance(v, (list, dict))] *)
Definition is_dict (v : value) : bool :=
  match v with VDict _ => true | _ => false end.

Definition is_nested (v : value) : bool :=
  match v with VList _ | VDict _ => true | _ => false end.

(** [d.get(k)] on the items of a dict: the value stored under [k]. *)
Fixpoint dict_get (d : list (string * value)) (k : string) : option value :=
  match d with
  | [] => None
  | (k', v) :: d' => if String.eqb k' k then Some v else dict_get d' k
  end.

(** [d.get(k, dflt)]; [d.get(k)] is [get_default d k VNone]. *)
Definition get_default (d : list (string * value)) (k : string) (dflt : value) : value :=
  match dict_get d k with Some v => v | None => dflt end.

(** [k in d] *)
Definition has_key (d : list (string * value)) (k : string) : bool :=
  match dict_get d k with Some _ => true | None => false end.

(** A dict holds each key once. *)
Definition wf_dict (d : list (string * value)) : Prop := NoDup (map fst d).

(** The hash keys of the hashable values: Python compares [True] and [1]
    equal and hashes them alike, strings by content. Lists and dicts have no
    hash ([TypeError: unhashable type]). *)
Inductive key : Type :=
| KNone
| KNum (z : Z)
| KStr (s : string).

Definition hash_key (v : value) : option key :=
  match v with
  | VNone => Some KNone
  | VBool b => Some (KNum (if b then 1 else 0))
  | VInt z => Some (KNum z)
  | VStr s => Some (KStr s)
  | VList _ | VDict _ => None
  end.

#[global] Instance key_eq_dec : EqDecision key.
Proof. solve_decision. Defined.

#[global] Instance key_countable : Countable key.
Proof.
  refine (inj_countable'
    (fun k => match k with
              | KNone => inl ()
              | KNum z => inr (inl z)
              | KStr s => inr (inr s)
              end)
    (fun x => match x with
              | inl _ => KNone
              | inr (inl z) => KNum z
              | inr (inr s) => KStr s
              end) _).
  intros []; reflexivity.
Defined.

(** [len(xs) >= v] for a list length [n]: defined against [int] and [bool],
    a [TypeError] against anything else. *)
Definition len_ge (n : nat) (v : value) : exn + bool :=
  match v with
  | VInt z => inr (Z.leb z (Z.of_nat n))
  | VBool b => inr (Z.leb (if b then 1 else 0) (Z.of_nat n))
  | _ => inl TypeError
  end.

(** [for x in v]: the elements of a list; a dict yields its keys and a
    string its characters (all of them strings); anything else is not
    iterable. *)
Definition py_iter (v : value) : exn + list value :=
  match v with
  | VList l => inr l
  | VDict d => inr (map (fun kv => VStr (fst kv)) d)
  | VStr s => inr (map (fun c => VStr (String c "")) (list_ascii_of_string s))
  | _ => inl TypeError
  end.

(** [v.get(k, dflt)]: only a dict has the method. *)
Definition py_get (v : value) (k : string) (dflt : value) : exn + value :=
  match v with
  | VDict d => inr (get_default d k dflt)
  | _ => inl AttributeError
  end.

(** *** [json.dumps(v, ensure_ascii=False)]

    The default separators [", "] and [": "]; a string is quoted with the
    escapes of [json.encoder.ESCAPE_DCT], every other byte as it is. *)
Definition hex_digit (n : N) : ascii :=
  ascii_of_N (if (n <? 10)%N then 48 + n else 87 + n)%N.

Definition bs : string := String (ascii_of_N 92) "". (* the backslash *)
Definition dq : string := String (ascii_of_N 34) "". (* the double quote *)

Definition escape_char (c : ascii) : string :=
  let n := N_of_ascii c in
  if (n =? 34)%N then bs ++ dq
  else if (n =? 92)%N then bs ++ bs
  else if (n =? 8)%N then bs ++ "b"
  else if (n =? 12)%N then bs ++ "f"
  else if (n =? 10)%N then bs ++ "n"
  else if (n =? 13)%N then bs ++ "r"
  else if (n =? 9)%N then bs ++ "t"
  else if (n <? 32)%N then
    bs ++ "u00" ++ String (hex_digit (n / 16)) (String (hex_digit (n mod 16)) "")
  else String c "".

Fixpoint escape (s : string) : string :=
  match s with
  | EmptyString => ""
  | String c s' => escape_char c ++ escape s'
  end.

Definition quote (s : string) : string := dq ++ escape s ++ dq.

Definition str_of_int (z : Z) : string := NilZero.string_of_int (Z.to_int z).

Fixpoint json_dumps (v : value) : string :=
  match v with
  | VNone => "null"
  | VBool b => if b then "true" else "false"
  | VInt z => str_of_int z
  | VStr s => quote s
  | VList l =>
      "[" ++
      (fix elems (l : list value) : string :=
         match l with
         | [] => ""
         | x :: l' =>
             match l' with
             | [] => json_dumps x
             | _ :: _ => json_dumps x ++ ", " ++ elems l'
             end
         end) l ++ "]"
  | VDict d =>
      "{" ++
      (fix members (d : list (string * value)) : string :=
         match d with
         | [] => ""
         | (k, x) :: d' =>
             match d' with
             | [] => quote k ++ ": " ++ json_dumps x
             | _ :: _ => quote k ++ ": " ++ json_dumps x ++ ", " ++ members d'
             end
         end) d ++ "}"
  end.

End Py.

(** ** [datetime]: the part of the standard library the time window uses

    Aware datetimes with a fixed-offset [tzinfo], as [datetime.timezone]
    gives them; the calendar arithmetic follows CPython's [_pydatetime]. *)
Module DateTime.
Import Py.

Record datetime : Type := mkdt {
  year : Z; month : Z; day : Z;
  hour : Z; minute : Z; second : Z; microsecond : Z;
  utcoffset : Z (* seconds east of UTC: [timezone(timedelta(seconds=utcoffset))] *)
}.

Definition MAXORDINAL : Z := 3652059. (* date(9999, 12, 31).toordinal() *)
Definition DI400Y : Z := 146097.
Definition DI100Y : Z := 36524.
Definition DI4Y : Z := 1461.

Definition is_leap (y : Z) : bool :=
  Z.eqb (y mod 4) 0 && (negb (Z.eqb (y mod 100) 0) || Z.eqb (y mod 400) 0).

Definition days_before_year (y : Z) : Z :=
  let y := y - 1 in y * 365 + y / 4 - y / 100 + y / 400.

(** [_DAYS_IN_MONTH] and [_DAYS_BEFORE_MONTH], indexed from 1. *)
Definition DAYS_IN_MONTH (m : Z) : Z :=
  nth (Z.to_nat m) [-1; 31; 28; 31; 30; 31; 30; 31; 31; 30; 31; 30; 31] (-1).

Definition DAYS_BEFORE_MONTH (m : Z) : Z :=
  nth (Z.to_nat m) [-1; 0; 31; 59; 90; 120; 151; 181; 212; 243; 273; 304; 334] (-1).

Definition days_before_month (y m : Z) : Z :=
  DAYS_BEFORE_MONTH m + (if Z.ltb 2 m && is_leap y then 1 else 0).

Definition ymd2ord (y m d : Z) : Z :=
  days_before_year y + days_before_month y m + d.

Definition ord2ymd (n : Z) : Z * Z * Z :=
  let n := n - 1 in
  let n400 := n / DI400Y in let n := n mod DI400Y in
  let y := n400 * 400 + 1 in
  let n100 := n / DI100Y in let n := n mod DI100Y in
  let n4 := n / DI4Y in let n := n mod DI4Y in
  let n1 := n / 365 in let n := n mod 365 in
  let y := y + n100 * 100 + n4 * 4 + n1 in
  if Z.eqb n1 4 || Z.eqb n100 4 then (y - 1, 12, 31)
  else
    let leapyear := Z.eqb n1 3 && (negb (Z.eqb n4 24) || Z.eqb n100 3) in
    let m := Z.shiftr (n + 50) 5 in
    let preceding := DAYS_BEFORE_MONTH m + (if Z.ltb 2 m && leapyear then 1 else 0) in
    if Z.ltb n preceding then
      let m := m - 1 in
      let preceding :=
        preceding - (DAYS_IN_MONTH m + (if Z.eqb m 2 && leapyear then 1 else 0)) in
      (y, m, n - preceding + 1)
    else (y, m, n - preceding + 1).

Definition toordinal (t : datetime) : Z := ymd2ord (year t) (month t) (day t).

(** [t + timedelta(days, seconds, microseconds)], [datetime.__add__]: the
    sum is normalised as a [timedelta] is, and a date outside
    [1 .. MAXORDINAL] is an [OverflowError]. *)
Definition add (t : datetime) (days seconds microseconds : Z) : exn + datetime :=
  let us := microsecond t + microseconds in
  let s := hour t * 3600 + minute t * 60 + second t + seconds + us / 1000000 in
  let d := toordinal t + days + s / 86400 in
  let s := s mod 86400 in
  if Z.ltb 0 d && Z.leb d MAXORDINAL then
    let '(y, m, dd) := ord2ymd d in
    inr (mkdt y m dd (s / 3600) (s mod 3600 / 60) (s mod 3600 mod 60)
              (us mod 1000000) (utcoffset t))
  else inl OverflowError.

(** [t.replace(hour=h, minute=mi, second=s, microsecond=us)] and
    [t.replace(tzinfo=timezone(timedelta(seconds=off)))] *)
Definition replace_time (t : datetime) (h mi s us : Z) : datetime :=
  mkdt (year t) (month t) (day t) h mi s us (utcoffset t).

Definition replace_tzinfo (t : datetime) (off : Z) : datetime :=
  mkdt (year t) (month t) (day t) (hour t) (minute t) (second t) (microsecond t) off.

(** [t.astimezone(timezone(timedelta(seconds=off)))]: to UTC under the new
    [tzinfo], then [tz.fromutc]. *)
Definition astimezone (t : datetime) (off : Z) : exn + datetime :=
  match add t 0 (- utcoffset t) 0 with
  | inl e => inl e
  | inr u => add (replace_tzinfo u off) 0 off 0
  end.

(** [t.strftime("%Y-%m-%d %H:%M:%S")], for the four-digit years. *)
Definition pad (width : nat) (z : Z) : string :=
  let s := str_of_int z in
  String.concat "" (repeat "0" (width - String.length s)) ++ s.

Definition strftime (t : datetime) : string :=
  pad 4 (year t) ++ "-" ++ pad 2 (month t) ++ "-" ++ pad 2 (day t) ++ " " ++
  pad 2 (hour t) ++ ":" ++ pad 2 (minute t) ++ ":" ++ pad 2 (second t).

End DateTime.

(** ** The outside world: HTTP transport and clock, and the run monad *)
Module Run.
Import Py DateTime.

(** The requests the scripts issue, by endpoint and the parameters the URL
    carries. *)
Inductive request : Type :=
| SellerList                       (* /api/catalog_system/pvt/seller/list *)
| SellerDetails (seller_id : value) (* /api/seller-register/pvt/sellers/{seller_id} *)
| OrderList (i_utc f_utc : datetime) (pagina : Z)
                                   (* /api/oms/pvt/orders?f_creationDate=...&per_page=50&page={pagina} *)
| OrderDetails (order_id : value).  (* /api/oms/pvt/orders/{order_id} *)

(** What one [requests.get] meets: an exception of the transport, or a
    response with its status code and its body ([None] when the body is not
    JSON, so that [.json()] raises). *)
Record response : Type := mkresp { status_code : Z; body : option value }.

Inductive reply : Type :=
| ConnError
| Resp (r : response).

Record world : Type := mkworld {
  pending : list reply;     (* the replies still to come, in order *)
  sent : list request;      (* the requests issued so far, in order *)
  clock : nat -> datetime;  (* what the n-th [datetime.now(timezone.utc)] reads *)
  reads : nat               (* clock readings so far *)
}.

Inductive outcome (A : Type) : Type :=
| Ret (a : A)        (* returned *)
| Raise (e : exn)    (* an uncaught exception *)
| Starved            (* blocked in [requests.get]: the script of replies is over *)
| OutOfFuel.         (* the loop bound of the model is used up *)
Arguments Ret {A} a.
Arguments Raise {A} e.
Arguments Starved {A}.
Arguments OutOfFuel {A}.

Definition M (A : Type) : Type := world -> outcome A * world.

Definition ret {A} (a : A) : M A := fun w => (Ret a, w).
Definition raise {A} (e : exn) : M A := fun w => (Raise e, w).

Definition bind {A B} (m : M A) (k : A -> M B) : M B :=
  fun w =>
    match m w with
    | (Ret a, w') => k a w'
    | (Raise e, w') => (Raise e, w')
    | (Starved, w') => (Starved, w')
    | (OutOfFuel, w') => (OutOfFuel, w')
    end.

Notation "x <- m ;; k" := (bind m (fun x => k))
  (at level 100, m at next level, right associativity).

(** A pure computation that may raise. *)
Definition lift {A} (r : exn + A) : M A :=
  match r with inl e => raise e | inr a => ret a end.

(** [try: m  except RequestException: h] *)
Definition try_except_request {A} (m : M A) (h : M A) : M A :=
  fun w =>
    match m w with
    | (Raise RequestException, w') => h w'
    | r => r
    end.

(** [requests.get(url, headers=..., timeout=30)] *)
Definition requests_get (q : request) : M response :=
  fun w =>
    let w' := mkworld (tail (pending w)) (sent w ++ [q]) (clock w) (reads w) in
    match pending w with
    | [] => (Starved, w')
    | ConnError :: _ => (Raise RequestException, w')
    | Resp r :: _ => (Ret r, w')
    end.

(** [r.raise_for_status()]: an [HTTPError] for the 4xx and 5xx codes. *)
Definition raise_for_status (r : response) : M unit :=
  if Z.leb 400 (status_code r) && Z.ltb (status_code r) 600
  then raise RequestException else ret tt.

(** [r.json()]: when the body is not JSON, the [JSONDecodeError] of
    [requests] (2.27 and later), a [RequestException]. *)
Definition json (r : response) : M value :=
  match body r with Some v => ret v | None => raise RequestException end.

(** [datetime.now(timezone.utc)] *)
Definition now_utc : M datetime :=
  fun w => (Ret (clock w (reads w)),
            mkworld (pending w) (sent w) (clock w) (S (reads w))).

(** The control a loop body hands back: go round again, or [break]. *)
Inductive ctl (S R : Type) : Type :=
| Continue (s : S)
| Break (r : R).
Arguments Continue {S R} s.
Arguments Break {S R} r.

(** [while True: body], bounded by [fuel] rounds. *)
Fixpoint while_true {S R} (fuel : nat) (body : S -> M (ctl S R)) (s : S) : M R :=
  match fuel with
  | O => fun w => (OutOfFuel, w)
  | Datatypes.S fuel' =>
      c <- body s ;;
      match c with
      | Continue s' => while_true fuel' body s'
      | Break r => ret r
      end
  end.

(** [for x in xs: body], threading the loop's variables. *)
Fixpoint for_each {A S} (xs : list A) (body : S -> A -> M S) (s : S) : M S :=
  match xs with
  | [] => ret s
  | x :: xs' => s' <- body s x ;; for_each xs' body s'
  end.

End Run.

(** ** [lista_sellers.py]: class [VTEXSellersExporter] *)
Module Sellers.
Import Py DateTime Run.
Local Open Scope list_scope.

(** The loop variables of [get_all_sellers]. *)
Record fetch_state : Type := mkfs {
  all_sellers : list value;
  seen_ids : gset key;
  total_sellers : value
}.

(** [seller.get('SellerId') or seller.get('id') or seller.get('sellerId')] *)
Definition resolve_id (seller : list (string * value)) : value :=
  py_or (get_default seller "SellerId" VNone)
        (py_or (get_default seller "id" VNone) (get_default seller "sellerId" VNone)).

(** The body of [for seller in sellers], on the variables [all_sellers],
    [seen_ids] and [new_sellers_count]. It touches nothing outside them. *)
Definition scan_seller (acc : list value * gset key * nat) (seller : value)
  : exn + list value * gset key * nat :=
  let '(all, seen, new_sellers_count) := acc in
  match seller with
  | VDict d =>
      let seller_id := resolve_id d in
      if truthy seller_id then
        match hash_key seller_id with
        | None => inl TypeError
        | Some k =>
            if bool_decide (k ∈ seen) then inr acc
            else inr (all ++ [seller], {[ k ]} ∪ seen, S new_sellers_count)
        end
      else inr acc
  | _ => inr acc
  end.

Fixpoint scan_sellers (sellers : list value) (acc : list value * gset key * nat)
  : exn + list value * gset key * nat :=
  match sellers with
  | [] => inr acc
  | seller :: sellers' =>
      match scan_seller acc seller with
      | inl e => inl e
      | inr acc' => scan_sellers sellers' acc'
      end
  end.

(** [new_sellers_count = 0; if sellers: for seller in sellers: ...] on the
    page [data]. *)
Definition page_scan (st : fetch_state) (data : list (string * value))
  : exn + list value * gset key * nat :=
  let sellers := get_default data "items" (VList []) in
  if truthy sellers then
    match py_iter sellers with
    | inl e => inl e
    | inr xs => scan_sellers xs (all_sellers st, seen_ids st, O)
    end
  else inr (all_sellers st, seen_ids st, O).

(** [if total_sellers is None: total_sellers = paging.get('total', 0)] *)
Definition declared_total (st : fetch_state) (data : list (string * value))
  : exn + value :=
  let paging := get_default data "paging" (VDict []) in
  match total_sellers st with
  | VNone => py_get paging "total" (VInt 0)
  | t => inr t
  end.

(** One round of the [while True] of [get_all_sellers]. The handler's
    [break] leaves [all_sellers] as the round found it: only the request,
    [raise_for_status] and [json] raise a [RequestException], and they come
    first. *)
Definition fetch_page (st : fetch_state) : M (ctl fetch_state (list value)) :=
  try_except_request
    (response <- requests_get SellerList ;;
     _ <- raise_for_status response ;;
     data <- json response ;;
     match data with
     | VDict d =>
         total <- lift (declared_total st d) ;;
         acc <- lift (page_scan st d) ;;
         let '(all, seen, new_sellers_count) := acc in
         reached <- (if truthy total then lift (len_ge (length all) total)
                     else ret false) ;;
         if reached || Nat.eqb new_sellers_count 0
         then ret (Break all)
         else ret (Continue (mkfs all seen total))
     | VList l => ret (Break l)
     | _ => ret (Break [])
     end)
    (ret (Break (all_sellers st))).

Definition get_all_sellers : M (list value) :=
  fun w => while_true (S (length (pending w))) fetch_page (mkfs [] ∅ VNone) w.

Definition get_seller_details (seller_id : value) : M value :=
  try_except_request
    (response <- requests_get (SellerDetails seller_id) ;;
     _ <- raise_for_status response ;;
     json response)
    (ret (VDict [])).

(** *** [export_to_csv] *)

Definition fieldnames : list string :=
  [ "id"; "name"; "email"; "description"; "exchangeReturnPolicy";
    "deliveryPolicy"; "useHybridPaymentOptions"; "userName"; "password";
    "SonarConfiguration"; "taxCode"; "isActive"; "fulfillmentEndpoint";
    "catalogSystemEndpoint"; "allowHybridPayments"; "sellerType";
    "availableSalesChannels"; "trustPolicy"; "channel"; "sellerId";
    "CSCIdentification" ].

Definition field_mapping : list (string * string) :=
  [ ("SellerId", "id"); ("Name", "name"); ("Email", "email");
    ("Description", "description");
    ("ExchangeReturnPolicy", "exchangeReturnPolicy");
    ("DeliveryPolicy", "deliveryPolicy");
    ("UseHybridPaymentOptions", "useHybridPaymentOptions");
    ("UserName", "userName"); ("Password", "password");
    ("TaxCode", "taxCode"); ("IsActive", "isActive");
    ("FulfillmentEndpoint", "fulfillmentEndpoint");
    ("CatalogSystemEndpoint", "catalogSystemEndpoint") ].

(** [field_mapping.get(key, key)] *)
Fixpoint mapping_get (m : list (string * string)) (k : string) : string :=
  match m with
  | [] => k
  | (k', t) :: m' => if String.eqb k' k then t else mapping_get m' k
  end.

Definition target_key (k : string) : string := mapping_get field_mapping k.

(** What is stored for a value: its JSON text when it is a list or a dict. *)
Definition cell (v : value) : value :=
  if is_nested v then VStr (json_dumps v) else v.

(** [for key, value in seller.items(): row[target_key] = ...] *)
Definition fill_row (seller : list (string * value)) (row : gmap string value)
  : gmap string value :=
  fold_left (fun row kv => <[ target_key (fst kv) := cell (snd kv) ]> row) seller row.

(** The [row] handed to [writer.writerow]. *)
Definition make_row (seller : list (string * value)) : gmap string value :=
  let row := fill_row seller ∅ in
  if bool_decide (row !! "id" = None) && has_key seller "SellerId"
  then <[ "id" := get_default seller "SellerId" VNone ]> row
  else row.

(** A CSV file as [csv.DictWriter] and [DataFrame.to_csv] are asked to
    write it: the header, then the cells of each line, before the writer
    turns them into text. *)
Record csv_file : Type := mkcsv { header : list string; lines : list (list value) }.

(** [DictWriter.writerow] with [extrasaction='ignore'] and the default
    [restval='']. *)
Definition writerow (fields : list string) (row : gmap string value) : list value :=
  map (fun k => default (VStr "") (row !! k)) fields.

Section Exporter.

(** The order in which Python iterates a [set] of strings; the language
    leaves it open. *)
Variable set_iter : gset string -> list string.

Definition all_keys (sellers : list value) : gset string :=
  fold_left
    (fun keys seller =>
       match seller with
       | VDict d => keys ∪ list_to_set (map fst d)
       | _ => keys
       end) sellers ∅.

Definition extend_fieldnames (names : list string) (keys : list string) : list string :=
  fold_left (fun names k => if bool_decide (k ∈ names) then names else names ++ [k])
            keys names.

(** The file [export_to_csv] leaves behind, with its name; [None] when it
    returns without opening one. The destination is taken to accept the
    write (a failure to open or write is re-raised by the source). *)
Definition export_to_csv (sellers : list value) (filename : option string)
  : option (string * csv_file) :=
  match sellers with
  | [] => None
  | _ :: _ =>
      let filename := default "output/vtex_sellers.csv" filename in
      let names := extend_fieldnames fieldnames (set_iter (all_keys sellers)) in
      Some (filename,
            mkcsv names
              (omap (fun seller =>
                       match seller with
                       | VDict d => Some (writerow names (make_row d))
                       | _ => None
                       end) sellers))
  end.

(** The body of [for i, seller in enumerate(sellers, 1)] in
    [export_sellers], on the variable [detailed_sellers]. *)
Definition add_details (detailed_sellers : list value) (seller : value) : M (list value) :=
  id1 <- lift (py_get seller "id" VNone) ;;
  seller_id <- (if truthy id1 then ret id1 else lift (py_get seller "sellerId" VNone)) ;;
  if truthy seller_id then
    details <- get_seller_details seller_id ;;
    if truthy details then ret (detailed_sellers ++ [details])
    else ret (detailed_sellers ++ [seller])
  else ret (detailed_sellers ++ [seller]).

Definition export_sellers (output_filename : option string) (include_details : bool)
  : M (option (string * csv_file)) :=
  sellers <- get_all_sellers ;;
  sellers <- (if include_details && truthy (VList sellers)
              then for_each sellers add_details []
              else ret sellers) ;;
  ret (export_to_csv sellers output_filename).

End Exporter.

End Sellers.

(** ** [pedidos_itens.py] *)
Module PedidosItens.
Import Py DateTime Run.
Local Open Scope list_scope.

(** A record of [registros], and of the DataFrame built from them. *)
Definition record : Type := list (string * value).

Definition BRT : Z := -10800. (* timezone(timedelta(hours=-3)) *)

Definition agora_brasil : M datetime :=
  t <- now_utc ;; lift (astimezone t BRT).

(** [s.replace("Z", "+00:00")] *)
Fixpoint replace_Z (s : string) : string :=
  match s with
  | EmptyString => EmptyString
  | String c s' =>
      if Ascii.eqb c "Z"%char then ("+00:00" ++ replace_Z s')%string
      else String c (replace_Z s')
  end.

Definition gerar_intervalo : M (datetime * datetime) :=
  agora <- agora_brasil ;;
  back <- lift (add agora (-4) 0 0) ;;
  let inicio := replace_time back 0 0 0 0 in
  let fim := replace_time agora 23 59 59 0 in
  ret (inicio, fim).

Section Coleta.

(** [datetime.fromisoformat]: which strings it accepts depends on the
    Python version, and a string without an offset is read in the time zone
    of the machine; the result is taken as an aware datetime, or the
    [ValueError]. *)
Variable fromisoformat : string -> exn + datetime.

Definition converter_brasil (data_iso : value) : exn + value :=
  if negb (truthy data_iso) then inr VNone
  else
    match data_iso with
    | VStr s =>
        match fromisoformat (replace_Z s) with
        | inl e => inl e
        | inr t =>
            match astimezone t BRT with
            | inl e => inl e
            | inr t' => inr (VStr (strftime t'))
            end
        end
    | _ => inl AttributeError (* no [replace] method *)
    end.

(** [for _ in range(3)]: the attempts left to fetch an order. *)
Fixpoint fetch_pedido (order_id : value) (attempts : nat) : M value :=
  match attempts with
  | O => ret VNone
  | S attempts' =>
      got <- try_except_request
               (r_det <- requests_get (OrderDetails order_id) ;;
                if Z.eqb (status_code r_det) 200
                then pedido <- json r_det ;; ret (Some pedido)
                else ret None)
               (ret None) ;;
      match got with
      | Some pedido => ret pedido
      | None => fetch_pedido order_id attempts'
      end
  end.

(** The body of [for item in pedido.get("items", [])]. *)
Definition add_item (creation_date_br order_id : value) (registros : list record)
                    (item : value) : M (list record) :=
  info <- lift (py_get item "additionalInfo" (VDict [])) ;;
  categories <- lift (py_get info "categories" VNone) ;;
  name <- lift (py_get item "name" VNone) ;;
  price <- lift (py_get item "price" VNone) ;;
  listPrice <- lift (py_get item "listPrice" VNone) ;;
  quantity <- lift (py_get item "quantity" VNone) ;;
  productId <- lift (py_get item "productId" VNone) ;;
  seller <- lift (py_get item "seller" VNone) ;;
  agora <- agora_brasil ;;
  ret (registros ++
       [[ ("creationDate", creation_date_br);
          ("orderId", order_id);
          ("additionalInfo_categories", categories);
          ("name", name);
          ("price", price);
          ("listPrice", listPrice);
          ("quantity", quantity);
          ("productId", productId);
          ("seller", seller);
          ("data_extracao", VStr (strftime agora)) ]]).

(** The body of [for resumo in tqdm(pedidos)]. *)
Definition collect_order (registros : list record) (resumo : value) : M (list record) :=
  order_id <- lift (py_get resumo "orderId" VNone) ;;
  if negb (truthy order_id) then ret registros
  else
    pedido <- fetch_pedido order_id 3 ;;
    if negb (truthy pedido) then ret registros
    else
      creationDate <- lift (py_get pedido "creationDate" VNone) ;;
      creation_date_br <- lift (converter_brasil creationDate) ;;
      items <- lift (py_get pedido "items" (VList [])) ;;
      xs <- lift (py_iter items) ;;
      for_each xs (add_item creation_date_br order_id) registros.

(** One round of the [while True] of [coletar_itens], on [registros] and
    [pagina]. *)
Definition collect_page (i_utc f_utc : datetime) (st : list record * Z)
  : M (ctl (list record * Z) (list record)) :=
  let '(registros, pagina) := st in
  r <- requests_get (OrderList i_utc f_utc pagina) ;;
  if negb (Z.eqb (status_code r) 200) then ret (Break registros)
  else
    data <- json r ;;
    pedidos <- lift (py_get data "list" (VList [])) ;;
    if negb (truthy pedidos) then ret (Break registros)
    else
      xs <- lift (py_iter pedidos) ;;
      registros <- for_each xs collect_order registros ;;
      ret (Continue (registros, pagina + 1)).

Definition coletar_itens : M (list record) :=
  iv <- gerar_intervalo ;;
  i_utc <- lift (astimezone (fst iv) 0) ;;
  f_utc <- lift (astimezone (snd iv) 0) ;;
  fun w => while_true (S (length (pending w))) (collect_page i_utc f_utc) ([], 1) w.

(** *** [main]: the DataFrame and its CSV *)

Definition colunas_finais : list string :=
  [ "creationDate"; "orderId"; "additionalInfo_categories"; "name"; "price";
    "listPrice"; "quantity"; "productId"; "seller"; "data_extracao" ].

(** The columns of [pd.DataFrame(dados)]: the keys of the records, in the
    order they first appear. *)
Definition columns (dados : list record) : list string :=
  fold_left (fun cols k => if bool_decide (k ∈ cols) then cols else cols ++ [k])
            (concat (map (map fst) dados)) [].

(** [df.empty]: no row, or no column. *)
Definition df_empty (dados : list record) : bool :=
  match dados, columns dados with
  | [], _ | _, [] => true
  | _, _ => false
  end.

(** The file [main] writes at [OUTPUT_PATH]; a column that [df] lacks makes
    [df[colunas_finais]] a [KeyError]. A key a record lacks is a missing
    cell, which [to_csv] writes as it writes [None]. *)
Definition main : M Sellers.csv_file :=
  dados <- coletar_itens ;;
  if df_empty dados then ret (Sellers.mkcsv colunas_finais [])
  else if forallb (fun c => bool_decide (c ∈ columns dados)) colunas_finais
  then ret (Sellers.mkcsv colunas_finais
              (map (fun rec => map (fun c => get_default rec c VNone) colunas_finais) dados))
  else raise KeyError.

End Coleta.

End PedidosItens.

(** * Properties *)

(** ** The row normaliser of [export_to_csv] *)
Module RowFacts.
Import Py Sellers.
Local Open Scope list_scope.

Lemma target_key_id (k : string) :
  target_key k = "id" <-> k = "SellerId" \/ k = "id".
Proof.
  unfold target_key, field_mapping, mapping_get.
  repeat match goal with
         | |- context [String.eqb ?a k] =>
             destruct (String.eqb_spec a k) as [<- | ?]
         end; split; intros H; try discriminate; auto;
    destruct H as [H | H]; congruence.
Qed.

Lemma fill_row_app (d1 d2 : list (string * value)) (row : gmap string value) :
  fill_row (d1 ++ d2) row = fill_row d2 (fill_row d1 row).
Proof. unfold fill_row. apply fold_left_app. Qed.

Lemma fill_row_untouched (t : string) (d : list (string * value)) :
  forall row : gmap string value,
    Forall (fun kv => target_key (fst kv) <> t) d ->
    fill_row d row !! t = row !! t.
Proof.
  induction d as [| [k v] d IH]; intros row Hd; [reflexivity |].
  inversion Hd as [| ? ? Hk Hd']; subst. cbn [fill_row fold_left fst snd].
  change (fill_row d (<[target_key k:=cell v]> row) !! t = row !! t).
  rewrite IH by assumption. apply lookup_insert_ne. exact Hk.
Qed.

(** The field written last under a column is the one the row keeps. *)
Lemma fill_row_last (d1 d2 : list (string * value)) (k : string) (v : value)
                    (row : gmap string value) :
  Forall (fun kv => target_key (fst kv) <> target_key k) d2 ->
  fill_row (d1 ++ (k, v) :: d2) row !! target_key k = Some (cell v).
Proof.
  intros Hd2. rewrite fill_row_app. cbn [fill_row fold_left fst snd].
  change (fill_row d2 (<[target_key k:=cell v]> (fill_row d1 row)) !! target_key k
          = Some (cell v)).
  rewrite fill_row_untouched by assumption. apply lookup_insert_eq.
Qed.

Lemma has_key_In (d : list (string * value)) (k : string) :
  has_key d k = true -> exists v, In (k, v) d.
Proof.
  unfold has_key. induction d as [| [k' v'] d IH]; cbn [dict_get]; [discriminate |].
  destruct (String.eqb_spec k' k) as [-> | _].
  - intros _. exists v'. now left.
  - intros H. destruct (IH H) as [v Hv]. exists v. now right.
Qed.

(** The last element of a list among those that satisfy [P]. *)
Lemma last_such {A} (P : A -> Prop) (l : list A) :
  (forall x, P x \/ ~ P x) -> Exists P l ->
  exists l1 b l2, l = l1 ++ b :: l2 /\ P b /\ Forall (fun x => ~ P x) l2.
Proof.
  intros dec. induction l as [| x l IH] using rev_ind; intros Hex.
  - inversion Hex.
  - destruct (dec x) as [Hx | Hx].
    + exists l, x, []. auto.
    + apply Exists_app in Hex as [Hex | Hex].
      * destruct (IH Hex) as (l1 & b & l2 & -> & Hb & Hl2).
        exists l1, b, (l2 ++ [x]). split; [now rewrite <- app_assoc |].
        split; [exact Hb |]. apply Forall_app. auto.
      * inversion Hex as [? ? HPx | ? ? Hnil]; [contradiction | inversion Hnil].
Qed.

Lemma fill_row_empty_or_field (t : string) (d : list (string * value)) :
  (Forall (fun kv => target_key (fst kv) <> t) d /\ fill_row d ∅ !! t = None) \/
  (exists d1 k v d2, d = d1 ++ (k, v) :: d2 /\ target_key k = t /\
     Forall (fun kv => target_key (fst kv) <> t) d2 /\
     fill_row d ∅ !! t = Some (cell v)).
Proof.
  destruct (decide (Exists (fun kv => target_key (fst kv) = t) d)) as [Hex | Hno].
  - right.
    destruct (last_such (fun kv => target_key (fst kv) = t) d) as (d1 & [k v] & d2 & -> & Hk & Hd2).
    + intros kv. destruct (string_dec (target_key (fst kv)) t); auto.
    + exact Hex.
    + cbn [fst] in Hk. exists d1, k, v, d2. repeat split; try assumption.
      subst t. now apply fill_row_last.
  - left. assert (Hall : Forall (fun kv => target_key (fst kv) <> t) d).
    { apply Forall_Exists_neg. exact Hno. }
    split; [exact Hall |]. now rewrite fill_row_untouched.
Qed.

(** The back-fill of [export_to_csv] (lines 211-213) never fires: the
    mapping has already sent ['SellerId'] to ['id']. *)
Lemma backfill_never_fires (d : list (string * value)) :
  make_row d = fill_row d ∅.
Proof.
  unfold make_row.
  destruct (has_key d "SellerId") eqn:Hk; [| now rewrite andb_false_r].
  destruct (fill_row_empty_or_field "id" d) as [[Hall _] | (d1 & k & v & d2 & _ & _ & _ & Hrow)].
  - exfalso. apply has_key_In in Hk as [v Hv].
    rewrite List.Forall_forall in Hall. apply (Hall _ Hv). reflexivity.
  - rewrite Hrow. reflexivity.
Qed.

End RowFacts.

Module RowClaims.
Import Py Sellers RowFacts.
Local Open Scope list_scope.

Ltac solve_wf_dict :=
  unfold wf_dict; apply (bool_decide_unpack _); vm_compute; exact I.

Lemma truthy_cell (x : value) : truthy x = true -> truthy (cell x) = true.
Proof. destruct x; intros H; try exact H; reflexivity. Qed.

(** C5 (amended). When an entity carries ['SellerId'] or ['id'], its row has
    an ['id'] field: the stored form of the last of the entity's
    ['SellerId'] / ['id'] fields, in the entity's key order. It is non-empty
    when that field's value is. *)
Theorem row_id_from_either_casing (d : list (string * value)) :
  has_key d "SellerId" = true \/ has_key d "id" = true ->
  exists d1 k x d2,
    d = d1 ++ (k, x) :: d2 /\ (k = "SellerId" \/ k = "id") /\
    Forall (fun kv => fst kv <> "SellerId" /\ fst kv <> "id") d2 /\
    make_row d !! "id" = Some (cell x) /\
    (truthy x = true -> truthy (cell x) = true).
Proof.
  intros Hk. rewrite backfill_never_fires.
  destruct (fill_row_empty_or_field "id" d)
    as [[Hall _] | (d1 & k & v & d2 & Hd & Hid & Hd2 & Hrow)].
  - exfalso. rewrite List.Forall_forall in Hall.
    destruct Hk as [Hk | Hk]; apply has_key_In in Hk as [v Hv];
      apply (Hall _ Hv); reflexivity.
  - exists d1, k, v, d2. split; [exact Hd |].
    split; [now apply target_key_id |]. split.
    + eapply List.Forall_impl; [| exact Hd2]. intros [k' v'] Hne. cbn [fst] in *.
      split; intros ->; apply Hne; reflexivity.
    + split; [exact Hrow | apply truthy_cell].
Qed.

Definition seller_pascal : list (string * value) := [("SellerId", VStr "A")].

Lemma row_id_from_either_casing_witness :
  exists d1 k x d2,
    seller_pascal = d1 ++ (k, x) :: d2 /\ (k = "SellerId" \/ k = "id") /\
    Forall (fun kv => fst kv <> "SellerId" /\ fst kv <> "id") d2 /\
    make_row seller_pascal !! "id" = Some (cell x) /\
    (truthy x = true -> truthy (cell x) = true).
Proof. apply (row_id_from_either_casing seller_pascal). left. reflexivity. Defined.

(** The entity [{"SellerId": "A", "id": ""}]: both casings are present, and
    the row's ['id'] is the empty string. *)
Definition seller_empty_id : list (string * value) :=
  [("SellerId", VStr "A"); ("id", VStr "")].

Lemma row_id_empty_counterexample :
  wf_dict seller_empty_id /\
  has_key seller_empty_id "SellerId" = true /\
  has_key seller_empty_id "id" = true /\
  make_row seller_empty_id !! "id" = Some (VStr "") /\
  ~ (exists v, make_row seller_empty_id !! "id" = Some v /\ truthy v = true).
Proof.
  assert (Hrow : make_row seller_empty_id !! "id" = Some (VStr "")) by reflexivity.
  split; [| repeat split; try reflexivity].
  - solve_wf_dict.
  - intros (v & Hv & Ht). rewrite Hrow in Hv. injection Hv as <-. discriminate.
Qed.

(** C8 (amended). A field of an entity that no later field of the entity
    overwrites (none after it is sent to the same column) is stored in its
    column as the JSON text of its value when the value is a list or a
    dict, and as the value itself otherwise. *)
Theorem row_cell_of_field (d1 d2 : list (string * value)) (k : string) (v : value) :
  Forall (fun kv => target_key (fst kv) <> target_key k) d2 ->
  make_row (d1 ++ (k, v) :: d2) !! target_key k
  = Some (if is_nested v then VStr (json_dumps v) else v).
Proof.
  intros Hd2. rewrite backfill_never_fires. now apply fill_row_last.
Qed.

Lemma row_cell_of_field_witness :
  make_row ([] ++ ("Name", VList [VInt 1]) :: [("id", VStr "a")]) !! target_key "Name"
  = Some (VStr "[1]").
Proof.
  apply (row_cell_of_field [] [("id", VStr "a")] "Name" (VList [VInt 1])).
  repeat constructor. discriminate.
Defined.

(** The entity [{"Name": [1], "name": "x"}]: the list under ['Name'] is
    written to the column ['name'] and then overwritten; no column of the
    row holds its JSON text. *)
Definition seller_two_names : list (string * value) :=
  [("Name", VList [VInt 1]); ("name", VStr "x")].

Lemma row_cell_overwritten_counterexample :
  wf_dict seller_two_names /\
  In ("Name", VList [VInt 1]) seller_two_names /\
  is_nested (VList [VInt 1]) = true /\
  json_dumps (VList [VInt 1]) = "[1]" /\
  make_row seller_two_names !! target_key "Name" = Some (VStr "x") /\
  (forall col, make_row seller_two_names !! col <> Some (VStr "[1]")).
Proof.
  split.
  { solve_wf_dict. }
  split; [now left |]. split; [reflexivity |]. split; [reflexivity |].
  split; [reflexivity |].
  intros col. rewrite backfill_never_fires.
  unfold seller_two_names, fill_row. cbn [fold_left fst snd].
  change (target_key "Name") with "name". change (target_key "name") with "name".
  destruct (decide (col = "name")) as [-> | Hne].
  - rewrite lookup_insert_eq. discriminate.
  - rewrite !lookup_insert_ne by congruence. rewrite lookup_empty. discriminate.
Qed.

End RowClaims.

(** ** Reasoning about runs *)
Module RunFacts.
Import Py DateTime Run.
Local Open Scope list_scope.

(** The world after one more request. *)
Definition advance (q : request) (w : world) : world :=
  mkworld (tail (pending w)) (sent w ++ [q]) (clock w) (reads w).

(** [extends w w']: a run took the world from [w] to [w'] - it consumed
    replies from the front of the script and appended to the log of
    requests. *)
Definition extends (w w' : world) : Prop :=
  exists consumed log,
    pending w = consumed ++ pending w' /\ sent w' = sent w ++ log /\
    clock w' = clock w.

Lemma extends_refl w : extends w w.
Proof. exists [], []. rewrite app_nil_r. auto. Qed.

Lemma extends_trans w1 w2 w3 : extends w1 w2 -> extends w2 w3 -> extends w1 w3.
Proof.
  intros (c1 & l1 & Hp1 & Hs1 & Hc1) (c2 & l2 & Hp2 & Hs2 & Hc2).
  exists (c1 ++ c2), (l1 ++ l2). rewrite Hp1, Hp2, Hs2, Hs1, Hc2, Hc1.
  now rewrite !app_assoc.
Qed.

Lemma extends_length w w' : extends w w' -> (length (pending w') <= length (pending w))%nat.
Proof. intros (c & l & -> & _). rewrite length_app. lia. Qed.

(** A computation is [traced] when every run of it extends the world. *)
Definition traced {A} (m : M A) : Prop := forall w, extends w (snd (m w)).

Lemma traced_ret {A} (a : A) : traced (ret a).
Proof. intros w. apply extends_refl. Qed.

Lemma traced_raise {A} (e : exn) : traced (@raise A e).
Proof. intros w. apply extends_refl. Qed.

Lemma traced_lift {A} (r : exn + A) : traced (lift r).
Proof. destruct r; [apply traced_raise | apply traced_ret]. Qed.

Lemma traced_bind {A B} (m : M A) (k : A -> M B) :
  traced m -> (forall a, traced (k a)) -> traced (bind m k).
Proof.
  intros Hm Hk w. unfold bind. specialize (Hm w).
  destruct (m w) as [[a | e | |] w1]; cbn [snd] in *; try exact Hm.
  eapply extends_trans; [exact Hm | apply Hk].
Qed.

Lemma traced_try {A} (m h : M A) : traced m -> traced h -> traced (try_except_request m h).
Proof.
  intros Hm Hh w. unfold try_except_request. specialize (Hm w).
  destruct (m w) as [[a | e | |] w1]; cbn [snd] in *; try exact Hm.
  destruct e; try exact Hm. eapply extends_trans; [exact Hm | apply Hh].
Qed.

Lemma traced_requests_get q : traced (requests_get q).
Proof.
  intros w. unfold requests_get.
  assert (H : extends w (mkworld (tail (pending w)) (sent w ++ [q]) (clock w) (reads w))).
  { exists (firstn 1 (pending w)), [q]. cbn [pending sent clock].
    split; [| auto]. destruct (pending w); reflexivity. }
  destruct (pending w) as [| [| r] rest]; exact H.
Qed.

Lemma traced_now_utc : traced now_utc.
Proof. intros w. exists [], []. cbn. rewrite app_nil_r. auto. Qed.

Lemma traced_if {A} (b : bool) (m1 m2 : M A) :
  traced m1 -> traced m2 -> traced (if b then m1 else m2).
Proof. now destruct b. Qed.

Lemma traced_for_each {A S} (body : S -> A -> M S) (xs : list A) :
  (forall s x, traced (body s x)) -> forall s, traced (for_each xs body s).
Proof.
  intros Hb. induction xs as [| x xs IH]; intros s; cbn [for_each].
  - apply traced_ret.
  - apply traced_bind; [apply Hb | exact IH].
Qed.

Lemma traced_while {S R} (body : S -> M (ctl S R)) (fuel : nat) :
  (forall s, traced (body s)) -> forall s, traced (while_true fuel body s).
Proof.
  intros Hb. induction fuel as [| fuel IH]; intros s; cbn [while_true].
  - intros w. apply extends_refl.
  - apply traced_bind; [apply Hb |]. intros [s' | r]; [apply IH | apply traced_ret].
Qed.

(** A computation is [fuelless] when it never ends on the loop bound. *)
Definition fuelless {A} (m : M A) : Prop := forall w, fst (m w) <> OutOfFuel.

Lemma fuelless_ret {A} (a : A) : fuelless (ret a).
Proof. intros w. discriminate. Qed.

Lemma fuelless_raise {A} (e : exn) : fuelless (@raise A e).
Proof. intros w. discriminate. Qed.

Lemma fuelless_lift {A} (r : exn + A) : fuelless (lift r).
Proof. destruct r; [apply fuelless_raise | apply fuelless_ret]. Qed.

Lemma fuelless_bind {A B} (m : M A) (k : A -> M B) :
  fuelless m -> (forall a, fuelless (k a)) -> fuelless (bind m k).
Proof.
  intros Hm Hk w. unfold bind. specialize (Hm w).
  destruct (m w) as [[a | e | |] w1]; cbn [fst] in *; try discriminate.
  - apply Hk.
  - contradiction.
Qed.

Lemma fuelless_try {A} (m h : M A) :
  fuelless m -> fuelless h -> fuelless (try_except_request m h).
Proof.
  intros Hm Hh w. unfold try_except_request. specialize (Hm w).
  destruct (m w) as [[a | e | |] w1]; cbn [fst] in *; try discriminate.
  - destruct e; try discriminate. apply Hh.
  - contradiction.
Qed.

Lemma fuelless_requests_get q : fuelless (requests_get q).
Proof. intros w. unfold requests_get. destruct (pending w) as [| [| r] rest]; discriminate. Qed.

Lemma fuelless_now_utc : fuelless now_utc.
Proof. intros w. discriminate. Qed.

Lemma fuelless_if {A} (b : bool) (m1 m2 : M A) :
  fuelless m1 -> fuelless m2 -> fuelless (if b then m1 else m2).
Proof. now destruct b. Qed.

Lemma fuelless_for_each {A S} (body : S -> A -> M S) (xs : list A) :
  (forall s x, fuelless (body s x)) -> forall s, fuelless (for_each xs body s).
Proof.
  intros Hb. induction xs as [| x xs IH]; intros s; cbn [for_each].
  - apply fuelless_ret.
  - apply fuelless_bind; [apply Hb | exact IH].
Qed.

(** [returns m P]: whatever [m] returns satisfies [P]. *)
Definition returns {A} (m : M A) (P : A -> Prop) : Prop :=
  forall w a w', m w = (Ret a, w') -> P a.

Lemma returns_ret {A} (a : A) (P : A -> Prop) : P a -> returns (ret a) P.
Proof. intros H w a' w' [= <- _]. exact H. Qed.

Lemma returns_lift {A} (r : exn + A) (P : A -> Prop) :
  (forall a, r = inr a -> P a) -> returns (lift r) P.
Proof. intros H w a w'. destruct r; [discriminate |]. intros [= <- _]. now apply H. Qed.

Lemma returns_bind {A B} (m : M A) (k : A -> M B) (Q : A -> Prop) (P : B -> Prop) :
  returns m Q -> (forall a, Q a -> returns (k a) P) -> returns (bind m k) P.
Proof.
  intros Hm Hk w b w'. unfold bind.
  destruct (m w) as [[a | e | |] w1] eqn:Hmw; try discriminate.
  intros Hkw. exact (Hk a (Hm _ _ _ Hmw) _ _ _ Hkw).
Qed.

Lemma returns_weaken {A} (m : M A) (P Q : A -> Prop) :
  returns m P -> (forall a, P a -> Q a) -> returns m Q.
Proof. intros Hm HPQ w a w' H. apply HPQ. exact (Hm _ _ _ H). Qed.

Lemma returns_any {A} (m : M A) : returns m (fun _ => True).
Proof. intros w a w' _. exact I. Qed.

Lemma returns_for_each {A S} (body : S -> A -> M S) (I : S -> Prop) (xs : list A) :
  (forall s x, I s -> returns (body s x) I) ->
  forall s, I s -> returns (for_each xs body s) I.
Proof.
  intros Hb. induction xs as [| x xs IH]; intros s Hs; cbn [for_each].
  - now apply returns_ret.
  - eapply returns_bind; [apply Hb; exact Hs | exact IH].
Qed.

Lemma returns_while {S R} (body : S -> M (ctl S R)) (I : S -> Prop) (P : R -> Prop)
                    (fuel : nat) :
  (forall s, I s ->
     returns (body s) (fun c => match c with Continue s' => I s' | Break r => P r end)) ->
  forall s, I s -> returns (while_true fuel body s) P.
Proof.
  intros Hb. induction fuel as [| fuel IH]; intros s Hs; cbn [while_true].
  - intros w a w'. discriminate.
  - eapply returns_bind; [apply Hb; exact Hs |].
    intros [s' | r] Hc; [now apply IH | now apply returns_ret].
Qed.

End RunFacts.

(** ** The paginated fetcher [get_all_sellers] *)
Module SellersFacts.
Import Py DateTime Run Sellers RunFacts.
Local Open Scope list_scope.

(** A reply on which [requests.get], [raise_for_status] or [json] raises. *)
Definition request_fails (r : reply) : bool :=
  match r with
  | ConnError => true
  | Resp r =>
      (Z.leb 400 (status_code r) && Z.ltb (status_code r) 600)
      || match body r with None => true | Some _ => false end
  end.

(** The JSON document a reply that does not fail delivers. *)
Definition reply_json (r : reply) : option value :=
  match r with
  | ConnError => None
  | Resp r => if request_fails (Resp r) then None else body r
  end.

(** The dict branch of a round, spelled out. *)
Definition page_result (st : fetch_state) (d : list (string * value))
  : outcome (ctl fetch_state (list value)) :=
  match declared_total st d with
  | inl e => Raise e
  | inr total =>
      match page_scan st d with
      | inl e => Raise e
      | inr (all, seen, new_sellers_count) =>
          match (if truthy total then len_ge (length all) total else inr false) with
          | inl e => Raise e
          | inr reached =>
              if reached || Nat.eqb new_sellers_count 0 then Ret (Break all)
              else Ret (Continue (mkfs all seen total))
          end
      end
  end.

(** What a round of the loop makes of the reply it receives. *)
Definition round_result (st : fetch_state) (r : reply)
  : outcome (ctl fetch_state (list value)) :=
  match r with
  | ConnError => Ret (Break (all_sellers st))
  | Resp resp =>
      if request_fails r then Ret (Break (all_sellers st))
      else match body resp with
           | Some (VDict d) => page_result st d
           | Some (VList l) => Ret (Break l)
           | _ => Ret (Break [])
           end
  end.

(** The rounds that go round again: [rounds st rs st'] when the replies
    [rs], met in the state [st], each continue the loop and leave it in
    [st']. *)
Inductive rounds : fetch_state -> list reply -> fetch_state -> Prop :=
| rounds_nil st : rounds st [] st
| rounds_cons st r st' rs st'' :
    round_result st r = Ret (Continue st') ->
    rounds st' rs st'' ->
    rounds st (r :: rs) st''.

(** The exceptions the pure part of a round can raise; none is a
    [RequestException], so none is caught by the round's handler. *)
Lemma declared_total_exn st d e : declared_total st d = inl e -> e = AttributeError.
Proof.
  unfold declared_total, py_get.
  destruct (total_sellers st); try discriminate.
  destruct (get_default d "paging" (VDict [])); congruence.
Qed.

Lemma scan_seller_exn acc x e : scan_seller acc x = inl e -> e = TypeError.
Proof.
  destruct acc as [[all seen] n]. unfold scan_seller.
  destruct x; try discriminate.
  destruct (truthy (resolve_id d)); [| discriminate].
  destruct (hash_key (resolve_id d)); [| congruence].
  destruct (bool_decide _); discriminate.
Qed.

Lemma scan_sellers_exn xs : forall acc e, scan_sellers xs acc = inl e -> e = TypeError.
Proof.
  induction xs as [| x xs IH]; intros acc e; cbn [scan_sellers]; [discriminate |].
  destruct (scan_seller acc x) as [e' | acc'] eqn:Hx.
  - intros [= <-]. eapply scan_seller_exn, Hx.
  - apply IH.
Qed.

Lemma page_scan_exn st d e : page_scan st d = inl e -> e = TypeError.
Proof.
  unfold page_scan. destruct (truthy _); [| discriminate].
  destruct (py_iter _) as [e' | xs] eqn:Hit.
  - intros [= <-]. unfold py_iter in Hit.
    destruct (get_default d "items" (VList [])); congruence.
  - apply scan_sellers_exn.
Qed.

Lemma len_ge_exn n v e : len_ge n v = inl e -> e = TypeError.
Proof. destruct v; cbn; congruence. Qed.

Lemma fetch_page_starved (st : fetch_state) (w : world) :
  pending w = [] -> fetch_page st w = (Starved, advance SellerList w).
Proof.
  intros Hp. unfold fetch_page, try_except_request, bind, requests_get, advance.
  rewrite Hp. reflexivity.
Qed.

Lemma fetch_page_reply (st : fetch_state) (w : world) (r : reply) (rest : list reply) :
  pending w = r :: rest ->
  fetch_page st w = (round_result st r, advance SellerList w).
Proof.
  intros Hp.
  unfold round_result, fetch_page, try_except_request, bind, requests_get, advance.
  rewrite Hp. destruct r as [| [sc b]]; [reflexivity |].
  unfold request_fails, raise_for_status, json, page_result. cbn [status_code body].
  destruct (Z.leb 400 sc && Z.ltb sc 600); [reflexivity |].
  cbn [orb]. destruct b as [v |]; [| reflexivity].
  unfold ret, raise. destruct v; try reflexivity.
  unfold lift.
  destruct (declared_total st d) as [e | total] eqn:Ht;
    [apply declared_total_exn in Ht as ->; reflexivity |].
  unfold ret. destruct (page_scan st d) as [e | [[all seen] n]] eqn:Hs;
    [apply page_scan_exn in Hs as ->; reflexivity |].
  unfold ret, raise. destruct (truthy total).
  - destruct (len_ge (length all) total) as [e | reached] eqn:Hl;
      [apply len_ge_exn in Hl as ->; reflexivity |].
    unfold ret. destruct (reached || Nat.eqb n 0); reflexivity.
  - destruct (false || Nat.eqb n 0); reflexivity.
Qed.

Lemma rounds_snoc st rs st' r st'' :
  rounds st rs st' -> round_result st' r = Ret (Continue st'') ->
  rounds st (rs ++ [r]) st''.
Proof.
  induction 1 as [st | st r0 st1 rs st2 Hr _ IH]; intros Hlast; cbn [app].
  - econstructor; [exact Hlast | constructor].
  - econstructor; [exact Hr | exact (IH Hlast)].
Qed.

(** A run that returns: the replies it consumed are some that continue the
    loop and then one that breaks it; it sent one request per reply, and
    left the clock alone. *)
Lemma while_fetch_returns (fuel : nat) :
  forall st w res w',
    while_true fuel fetch_page st w = (Ret res, w') ->
    exists rs r st',
      pending w = rs ++ r :: pending w' /\
      rounds st rs st' /\
      round_result st' r = Ret (Break res) /\
      sent w' = sent w ++ repeat SellerList (S (length rs)) /\
      clock w' = clock w /\ reads w' = reads w.
Proof.
  induction fuel as [| fuel IH]; intros st w res w' Hrun; [discriminate |].
  cbn [while_true] in Hrun. unfold bind in Hrun.
  destruct (pending w) as [| r rest] eqn:Hp.
  - rewrite (fetch_page_starved st w Hp) in Hrun. discriminate.
  - rewrite (fetch_page_reply st w r rest Hp) in Hrun.
    destruct (round_result st r) as [[st1 | res1] | e | |] eqn:Hr; try discriminate.
    + apply IH in Hrun as (rs & r' & st' & Hp' & Hrs & Hbr & Hsent & Hclock & Hreads).
      cbn [advance pending sent clock reads] in *.
      rewrite Hp in Hp'. cbn [tail] in Hp'.
      exists (r :: rs), r', st'. rewrite Hp'.
      split; [reflexivity |]. split; [econstructor; eassumption |].
      split; [exact Hbr |]. split; [| now split].
      rewrite Hsent, <- app_assoc. reflexivity.
    + unfold ret in Hrun. injection Hrun as <- <-.
      exists [], r, st. cbn [advance pending sent clock reads app length repeat].
      rewrite Hp. cbn [tail].
      split; [reflexivity |]. split; [constructor |]. split; [exact Hr |].
      repeat split.
Qed.

(** The bound of the model is never what ends a run: each round takes a
    reply, and the bound exceeds their number. *)
Lemma while_fetch_fuel (fuel : nat) :
  forall st w, (length (pending w) < fuel)%nat ->
    fst (while_true fuel fetch_page st w) <> OutOfFuel.
Proof.
  induction fuel as [| fuel IH]; intros st w Hlen; [inversion Hlen |].
  cbn [while_true]. unfold bind.
  destruct (pending w) as [| r rest] eqn:Hp.
  - rewrite (fetch_page_starved st w Hp). discriminate.
  - rewrite (fetch_page_reply st w r rest Hp).
    destruct (round_result st r) as [[st1 | res1] | e | |] eqn:Hr; try discriminate.
    + apply IH. cbn [advance pending tail]. rewrite Hp. cbn [tail].
      cbn [length] in Hlen. apply Nat.succ_lt_mono. exact Hlen.
    + exfalso. unfold round_result in Hr.
      destruct r as [| resp]; [discriminate |].
      destruct (request_fails (Resp resp)); [discriminate |].
      destruct (body resp) as [[] |]; try discriminate.
      unfold page_result in Hr.
      destruct (declared_total st d); [discriminate |].
      destruct (page_scan st d) as [| [[? ?] ?]]; [discriminate |].
      destruct (if truthy v then _ else _); [discriminate |].
      destruct (_ || _); discriminate.
Qed.

(** *** The deduplication invariant *)

(** [identified e k]: the entity [e] is a dict whose resolved identifier is
    non-empty and hashes to [k]. *)
Definition identified (e : value) (k : key) : Prop :=
  exists d, e = VDict d /\ truthy (resolve_id d) = true /\
            hash_key (resolve_id d) = Some k.

(** What one scan of a page adds: entities of the page, each identified,
    under keys that are new and pairwise distinct, all of them recorded. *)
Lemma scan_sellers_adds (xs : list value) :
  forall all seen n all' seen' n',
    scan_sellers xs (all, seen, n) = inr (all', seen', n') ->
    exists added ks,
      all' = all ++ added /\ n' = (n + length added)%nat /\
      Forall2 identified added ks /\ NoDup ks /\
      (forall k, k ∈ ks -> k ∉ seen) /\
      seen' = list_to_set ks ∪ seen /\
      Forall (fun e => In e xs) added.
Proof.
  induction xs as [| x xs IH]; intros all seen n all' seen' n' Hscan.
  - cbn in Hscan. injection Hscan as <- <- <-.
    exists [], []. rewrite app_nil_r, Nat.add_0_r.
    repeat split; try constructor. { intros k Hk%elem_of_nil. contradiction. } set_solver.
  - cbn [scan_sellers] in Hscan.
    assert (Hskip : scan_sellers xs (all, seen, n) = inr (all', seen', n') ->
            exists added ks,
              all' = all ++ added /\ n' = (n + length added)%nat /\
              Forall2 identified added ks /\ NoDup ks /\
              (forall k, k ∈ ks -> k ∉ seen) /\
              seen' = list_to_set ks ∪ seen /\
              Forall (fun e => In e (x :: xs)) added).
    { intros H. apply IH in H as (added & ks & ? & ? & ? & ? & ? & ? & Hin).
      exists added, ks. repeat split; try assumption.
      eapply List.Forall_impl; [| exact Hin]. intros e He. now right. }
    unfold scan_seller in Hscan. destruct x as [| | | | | d]; try (apply Hskip; exact Hscan).
    destruct (truthy (resolve_id d)) eqn:Htruthy; [| apply Hskip; exact Hscan].
    destruct (hash_key (resolve_id d)) as [k |] eqn:Hkey; [| discriminate].
    destruct (bool_decide (k ∈ seen)) eqn:Hseen; [apply Hskip; exact Hscan |].
    apply bool_decide_eq_false in Hseen.
    apply IH in Hscan as (added & ks & -> & -> & Hid & Hnd & Hnew & -> & Hin).
    exists (VDict d :: added), (k :: ks). split; [now rewrite <- app_assoc |].
    split; [cbn [length]; lia |]. split.
    { constructor; [| exact Hid]. exists d. auto. }
    split.
    { constructor; [| exact Hnd]. intros Hk. apply (Hnew k Hk). set_solver. }
    split.
    { intros k' Hk'. apply elem_of_cons in Hk' as [-> | Hk']; [exact Hseen |].
      specialize (Hnew k' Hk'). set_solver. }
    split; [set_solver |].
    constructor; [now left |].
    eapply List.Forall_impl; [| exact Hin]. intros e He. now right.
Qed.

(** The invariant of the loop: the accumulated entities are identified by
    pairwise distinct keys, which are the keys seen. *)
Definition deduplicated (st : fetch_state) : Prop :=
  exists ks, Forall2 identified (all_sellers st) ks /\ NoDup ks /\
             seen_ids st = list_to_set ks.

(** The entities a reply delivers: the ['items'] of a JSON object. *)
Definition delivers (r : reply) (e : value) : Prop :=
  exists d xs, reply_json r = Some (VDict d) /\
               dict_get d "items" = Some (VList xs) /\ In e xs.

Lemma page_scan_adds st d all seen n :
  page_scan st d = inr (all, seen, n) ->
  exists added ks,
    all = all_sellers st ++ added /\ n = length added /\
    Forall2 identified added ks /\ NoDup ks /\
    (forall k, k ∈ ks -> k ∉ seen_ids st) /\
    seen = list_to_set ks ∪ seen_ids st /\
    Forall (fun e => exists xs, dict_get d "items" = Some (VList xs) /\ In e xs) added.
Proof.
  unfold page_scan, get_default.
  assert (Hnone : exists added ks : list _,
            all_sellers st = all_sellers st ++ added /\ O = length added /\
            Forall2 identified added ks /\ NoDup ks /\
            (forall k, k ∈ ks -> k ∉ seen_ids st) /\
            seen_ids st = list_to_set ks ∪ seen_ids st /\
            Forall (fun e => exists xs, dict_get d "items" = Some (VList xs) /\ In e xs) added).
  { exists [], []. rewrite app_nil_r. repeat split; try constructor.
    { intros k Hk%elem_of_nil. contradiction. } set_solver. }
  destruct (dict_get d "items") as [items |] eqn:Hitems; cbn [truthy];
    [| intros [= <- <- <-]; exact Hnone].
  destruct (truthy items); [| intros [= <- <- <-]; exact Hnone].
  destruct (py_iter items) as [e | xs] eqn:Hit; [discriminate |].
  intros Hscan.
  apply scan_sellers_adds in Hscan as (added & ks & -> & -> & Hid & Hnd & Hnew & -> & Hin).
  exists added, ks. repeat split; try assumption.
  destruct items; try discriminate; cbn in Hit; injection Hit as <-.
  - (* a string: its characters are no dicts *)
    destruct Hid; [constructor |].
    exfalso. inversion Hin as [| ? ? Hx _]; subst.
    destruct H as (d' & -> & _). apply in_map_iff in Hx as (? & ? & _). discriminate.
  - eapply List.Forall_impl; [| exact Hin]. intros e He. eauto.
  - (* a dict: its keys are no dicts *)
    destruct Hid; [constructor |].
    exfalso. inversion Hin as [| ? ? Hx _]; subst.
    destruct H as (d' & -> & _). apply in_map_iff in Hx as (? & ? & _). discriminate.
Qed.

Definition delivered_by (rs : list reply) (e : value) : Prop :=
  Exists (fun r => delivers r e) rs.

Lemma deduplicated_app st all seen added ks :
  deduplicated st ->
  Forall2 identified added ks -> NoDup ks ->
  (forall k, k ∈ ks -> k ∉ seen_ids st) ->
  all = all_sellers st ++ added ->
  seen = list_to_set ks ∪ seen_ids st ->
  forall total, deduplicated (mkfs all seen total).
Proof.
  intros (ks0 & Hid0 & Hnd0 & Hseen0) Hid Hnd Hnew -> -> total.
  exists (ks0 ++ ks). cbn [all_sellers seen_ids]. split; [now apply Forall2_app |].
  split.
  - apply NoDup_app. split; [exact Hnd0 |]. split; [| exact Hnd].
    intros k Hk0 Hk. apply (Hnew k Hk). rewrite Hseen0. set_solver.
  - rewrite Hseen0, list_to_set_app_L. set_solver.
Qed.

(** A round on a JSON object keeps the invariant, and what it adds to the
    accumulated list are entities of that page. *)
Lemma page_result_inv st d c :
  page_result st d = Ret c -> deduplicated st ->
  exists st' added,
    (c = Continue st' \/ c = Break (all_sellers st')) /\
    deduplicated st' /\
    all_sellers st' = all_sellers st ++ added /\
    Forall (fun e => exists xs, dict_get d "items" = Some (VList xs) /\ In e xs) added.
Proof.
  unfold page_result. intros Hres Hinv.
  destruct (declared_total st d) as [| total]; [discriminate |].
  destruct (page_scan st d) as [| [[all seen] n]] eqn:Hscan; [discriminate |].
  apply page_scan_adds in Hscan as (added & ks & Hall & _ & Hid & Hnd & Hnew & Hseen & Hin).
  exists (mkfs all seen total), added. cbn [all_sellers].
  split.
  - destruct (if truthy total then _ else _) as [| reached]; [discriminate |].
    destruct (reached || Nat.eqb n 0); injection Hres as <-; auto.
  - split; [eapply deduplicated_app; eassumption |]. split; assumption.
Qed.

Lemma round_continue_inv st r st' :
  round_result st r = Ret (Continue st') -> deduplicated st ->
  deduplicated st' /\
  exists added, all_sellers st' = all_sellers st ++ added /\ Forall (delivers r) added.
Proof.
  unfold round_result. intros Hr Hinv.
  destruct r as [| resp]; [discriminate |].
  destruct (request_fails (Resp resp)) eqn:Hfail; [discriminate |].
  destruct (body resp) as [[| | | | | d] |] eqn:Hbody; try discriminate.
  apply page_result_inv in Hr as (st1 & added & [[= <-] | [=]] & Hinv' & Hall & Hin);
    [| exact Hinv].
  split; [exact Hinv' |]. exists added. split; [exact Hall |].
  eapply List.Forall_impl; [| exact Hin]. intros e (xs & Hxs & He).
  exists d, xs. unfold reply_json. rewrite Hfail, Hbody. auto.
Qed.

Lemma round_break_inv st r res :
  round_result st r = Ret (Break res) ->
  (forall v, reply_json r = Some v -> is_dict v = true) ->
  deduplicated st ->
  (exists ks, Forall2 identified res ks /\ NoDup ks) /\
  exists added, res = all_sellers st ++ added /\ Forall (delivers r) added.
Proof.
  unfold round_result. intros Hr Hdict Hinv.
  assert (Hsame : (exists ks, Forall2 identified (all_sellers st) ks /\ NoDup ks) /\
                  exists added, all_sellers st = all_sellers st ++ added /\
                                Forall (delivers r) added).
  { destruct Hinv as (ks & Hid & Hnd & _). split; [exists ks; split; assumption |].
    exists []. rewrite app_nil_r. split; [reflexivity | constructor]. }
  destruct r as [| resp]; [injection Hr as <-; exact Hsame |].
  destruct (request_fails (Resp resp)) eqn:Hfail; [injection Hr as <-; exact Hsame |].
  assert (Hjson : reply_json (Resp resp) = body resp).
  { unfold reply_json. now rewrite Hfail. }
  destruct (body resp) as [v |] eqn:Hbody.
  - specialize (Hdict v Hjson). destruct v as [| | | | | d]; try discriminate.
    apply page_result_inv in Hr as (st1 & added & [[=] | [= ->]] & Hinv' & Hall & Hin);
      [| exact Hinv].
    split.
    + destruct Hinv' as (ks & Hid & Hnd & _). exists ks. split; assumption.
    + exists added. split; [exact Hall |].
      eapply List.Forall_impl; [| exact Hin]. intros e (xs & Hxs & He).
      exists d, xs. rewrite Hjson. auto.
  - unfold request_fails in Hfail. rewrite Hbody in Hfail.
    rewrite orb_true_r in Hfail. discriminate.
Qed.

Lemma rounds_inv st rs st' :
  rounds st rs st' -> deduplicated st ->
  deduplicated st' /\
  exists added, all_sellers st' = all_sellers st ++ added /\
                Forall (delivered_by rs) added.
Proof.
  induction 1 as [st | st r st1 rs st2 Hr _ IH]; intros Hinv.
  - split; [exact Hinv |]. exists []. rewrite app_nil_r. auto.
  - destruct (round_continue_inv _ _ _ Hr Hinv) as (Hinv1 & added1 & Hall1 & Hin1).
    destruct (IH Hinv1) as (Hinv2 & added2 & Hall2 & Hin2).
    split; [exact Hinv2 |]. exists (added1 ++ added2).
    split; [rewrite Hall2, Hall1; now rewrite <- app_assoc |].
    apply Forall_app. split.
    + eapply List.Forall_impl; [| exact Hin1]. intros e He. now apply Exists_cons_hd.
    + eapply List.Forall_impl; [| exact Hin2]. intros e He. now apply Exists_cons_tl.
Qed.

Lemma deduplicated_init : deduplicated (mkfs [] ∅ VNone).
Proof. exists []. repeat split; constructor. Qed.

(** What a returning run of [get_all_sellers] accumulated, when every
    document it read was a JSON object. *)
Lemma get_all_sellers_objects w res w' consumed :
  get_all_sellers w = (Ret res, w') ->
  pending w = consumed ++ pending w' ->
  Forall (fun r => forall v, reply_json r = Some v -> is_dict v = true) consumed ->
  (exists ks, Forall2 identified res ks /\ NoDup ks) /\
  Forall (delivered_by consumed) res.
Proof.
  unfold get_all_sellers. intros Hrun Hcons Hdict.
  apply while_fetch_returns in Hrun as (rs & r & st & Hp & Hrs & Hbr & _).
  assert (consumed = rs ++ [r]) as ->.
  { apply (app_inv_tail (pending w')). rewrite <- Hcons, Hp, <- app_assoc. reflexivity. }
  apply Forall_app in Hdict as [_ Hr]. inversion Hr as [| ? ? Hr' _]; subst.
  destruct (rounds_inv _ _ _ Hrs deduplicated_init) as (Hinv & added & Hall & Hin).
  cbn [all_sellers app] in Hall.
  destruct (round_break_inv _ _ _ Hbr Hr' Hinv) as (Hks & added' & -> & Hin').
  split; [exact Hks |]. rewrite Hall. apply Forall_app. split.
  - eapply List.Forall_impl; [| exact Hin]. intros e He.
    apply Exists_app. now left.
  - eapply List.Forall_impl; [| exact Hin']. intros e He.
    apply Exists_app. right. now apply Exists_cons_hd.
Qed.

(** *** When the loop stops *)

(** The test on the declared total at the end of a round: reached, or
    still open (no total declared, or more entities to come). *)
Definition total_reached (total : value) (count : nat) : Prop :=
  truthy total = true /\ len_ge count total = inr true.

Definition total_open (total : value) (count : nat) : Prop :=
  truthy total = false \/ len_ge count total = inr false.

(** The stopping conditions of a round, in the words of the design: the
    request fails; or the document is no JSON object; or the accumulated
    count has reached the declared total; or the page brought nothing new. *)
Inductive stops (st : fetch_state) (r : reply) : Prop :=
| stops_failed :
    request_fails r = true -> stops st r
| stops_not_object v :
    reply_json r = Some v -> is_dict v = false -> stops st r
| stops_total d total all seen n :
    reply_json r = Some (VDict d) ->
    declared_total st d = inr total ->
    page_scan st d = inr (all, seen, n) ->
    total_reached total (length all) -> stops st r
| stops_nothing_new d total all seen :
    reply_json r = Some (VDict d) ->
    declared_total st d = inr total ->
    page_scan st d = inr (all, seen, O) ->
    total_open total (length all) -> stops st r.

Lemma reply_json_Some r v :
  reply_json r = Some v <->
  exists resp, r = Resp resp /\ request_fails r = false /\ body resp = Some v.
Proof.
  unfold reply_json. split.
  - destruct r as [| resp]; [discriminate |].
    destruct (request_fails (Resp resp)) eqn:Hf; [discriminate |]. eauto.
  - intros (resp & -> & Hf & Hb). now rewrite Hf.
Qed.

Lemma reply_json_None r : reply_json r = None <-> request_fails r = true.
Proof.
  unfold reply_json. destruct r as [| resp]; [tauto |].
  destruct (request_fails (Resp resp)) eqn:Hf; [tauto |].
  unfold request_fails in Hf. destruct (body resp); [split; discriminate |].
  rewrite orb_true_r in Hf. discriminate.
Qed.

Lemma round_result_cases st r :
  match reply_json r with
  | None => round_result st r = Ret (Break (all_sellers st))
  | Some (VDict d) => round_result st r = page_result st d
  | Some (VList l) => round_result st r = Ret (Break l)
  | Some _ => round_result st r = Ret (Break [])
  end.
Proof.
  destruct (reply_json r) as [v |] eqn:Hj.
  - apply reply_json_Some in Hj as (resp & -> & Hf & Hb).
    unfold round_result. rewrite Hf, Hb. destruct v; reflexivity.
  - apply reply_json_None in Hj. unfold round_result.
    destruct r; [reflexivity |]. now rewrite Hj.
Qed.

(** A round breaks the loop exactly on a stopping condition. *)
Lemma round_breaks_iff st r :
  (exists res, round_result st r = Ret (Break res)) <-> stops st r.
Proof.
  pose proof (round_result_cases st r) as Hc. split.
  - intros [res Hres]. destruct (reply_json r) as [v |] eqn:Hj.
    + destruct v as [| | | | | d];
        try (eapply stops_not_object; [exact Hj | reflexivity]).
      rewrite Hc in Hres. unfold page_result in Hres.
      destruct (declared_total st d) as [| total] eqn:Ht; [discriminate |].
      destruct (page_scan st d) as [| [[all seen] n]] eqn:Hs; [discriminate |].
      destruct (truthy total) eqn:Htr.
      * destruct (len_ge (length all) total) as [| [|]] eqn:Hl; [discriminate | |].
        { eapply stops_total; eauto. split; assumption. }
        cbn [orb] in Hres. destruct n; [| discriminate].
        eapply stops_nothing_new; eauto. now right.
      * cbn [orb] in Hres. destruct n; [| discriminate].
        eapply stops_nothing_new; eauto. now left.
    + apply stops_failed. now apply reply_json_None.
  - intros [Hf | v Hj Hd | d total all seen n Hj Ht Hs [Htr Hl]
            | d total all seen Hj Ht Hs Hopen].
    + apply reply_json_None in Hf. rewrite Hf in Hc. eauto.
    + rewrite Hj in Hc. destruct v; try discriminate; eauto.
    + rewrite Hj in Hc. rewrite Hc. unfold page_result.
      rewrite Ht, Hs, Htr, Hl. cbn [orb]. eauto.
    + rewrite Hj in Hc. rewrite Hc. unfold page_result. rewrite Ht, Hs.
      destruct Hopen as [-> | Hl].
      * cbn. eauto.
      * destruct (truthy total); [rewrite Hl |]; cbn; eauto.
Qed.

(** A page without items brings nothing new. *)
Lemma page_scan_no_items st d :
  truthy (get_default d "items" (VList [])) = false ->
  page_scan st d = inr (all_sellers st, seen_ids st, O).
Proof. unfold page_scan. now intros ->. Qed.

(** A run stops at the first reply that meets a stopping condition: it
    returns there, having sent one request per reply up to it, and leaves
    the rest of the script untouched. *)
Lemma while_fetch_stops (fuel : nat) :
  forall st rs st' r res rest w,
    rounds st rs st' ->
    round_result st' r = Ret (Break res) ->
    pending w = rs ++ r :: rest ->
    (length rs < fuel)%nat ->
    while_true fuel fetch_page st w =
      (Ret res,
       mkworld rest (sent w ++ repeat SellerList (S (length rs))) (clock w) (reads w)).
Proof.
  induction fuel as [| fuel IH]; intros st rs st' r res rest w Hrs Hbr Hp Hlen;
    [inversion Hlen |].
  cbn [while_true]. unfold bind.
  destruct Hrs as [st | st r0 st1 rs st2 Hr0 Hrs].
  - rewrite (fetch_page_reply st w r rest Hp), Hbr. unfold ret, advance.
    rewrite Hp. reflexivity.
  - rewrite (fetch_page_reply st w r0 (rs ++ r :: rest) Hp), Hr0.
    rewrite (IH st1 rs st2 r res rest (advance SellerList w) Hrs Hbr).
    + cbn [advance sent clock reads length repeat].
      rewrite <- app_assoc. reflexivity.
    + cbn [advance pending]. rewrite Hp. reflexivity.
    + cbn [length] in Hlen. lia.
Qed.

(** *** The detail request *)

Lemma get_seller_details_no_raise seller_id w e :
  fst (get_seller_details seller_id w) <> Raise e.
Proof.
  unfold get_seller_details, try_except_request, bind, requests_get,
    raise_for_status, json.
  destruct (pending w) as [| [| [sc b]] rest]; try discriminate.
  cbn [status_code body].
  destruct (Z.leb 400 sc && Z.ltb sc 600); [discriminate |].
  destruct b; discriminate.
Qed.

Lemma get_seller_details_failed seller_id w r rest :
  pending w = r :: rest -> request_fails r = true ->
  get_seller_details seller_id w
  = (Ret (VDict []), advance (SellerDetails seller_id) w).
Proof.
  unfold get_seller_details, try_except_request, bind, requests_get, advance,
    raise_for_status, json.
  intros -> Hf. destruct r as [| [sc b]]; [reflexivity |].
  cbn [request_fails status_code body] in *.
  destruct (Z.leb 400 sc && Z.ltb sc 600); [reflexivity |].
  destruct b; [discriminate | reflexivity].
Qed.

Lemma get_all_sellers_fuel w : fst (get_all_sellers w) <> OutOfFuel.
Proof. unfold get_all_sellers. apply while_fetch_fuel. lia. Qed.

End SellersFacts.

(** ** The order collector [coletar_itens] *)
Module PedidosFacts.
Import Py DateTime Run RunFacts PedidosItens.
Local Open Scope list_scope.

Section Coleta.

Variable fromisoformat : string -> exn + datetime.

(** *** The records carry the final columns *)

Definition has_columns (rec : record) : Prop := map fst rec = colunas_finais.

Lemma add_item_columns cd oid registros item :
  Forall has_columns registros ->
  returns (add_item cd oid registros item) (Forall has_columns).
Proof.
  intros Hregs. unfold add_item.
  repeat (eapply returns_bind; [apply returns_any | intros ? _]).
  apply returns_ret. apply Forall_app. split; [exact Hregs |].
  constructor; [reflexivity | constructor].
Qed.

Lemma collect_order_columns registros resumo :
  Forall has_columns registros ->
  returns (collect_order fromisoformat registros resumo) (Forall has_columns).
Proof.
  intros Hregs. unfold collect_order.
  eapply returns_bind; [apply returns_any | intros order_id _].
  destruct (negb (truthy order_id)); [now apply returns_ret |].
  eapply returns_bind; [apply returns_any | intros pedido _].
  destruct (negb (truthy pedido)); [now apply returns_ret |].
  repeat (eapply returns_bind; [apply returns_any | intros ? _]).
  apply returns_for_each; [| exact Hregs].
  intros s x Hs. now apply add_item_columns.
Qed.

Lemma collect_page_columns i_utc f_utc registros pagina :
  Forall has_columns registros ->
  returns (collect_page fromisoformat i_utc f_utc (registros, pagina))
          (fun c => match c with
                    | Continue st => Forall has_columns (fst st)
                    | Break res => Forall has_columns res
                    end).
Proof.
  intros Hregs. unfold collect_page.
  eapply returns_bind; [apply returns_any | intros r _].
  destruct (negb (Z.eqb (status_code r) 200)); [now apply returns_ret |].
  eapply returns_bind; [apply returns_any | intros data _].
  eapply returns_bind; [apply returns_any | intros pedidos _].
  destruct (negb (truthy pedidos)); [now apply returns_ret |].
  eapply returns_bind; [apply returns_any | intros xs _].
  eapply returns_bind.
  - apply returns_for_each; [| exact Hregs].
    intros s x Hs. now apply collect_order_columns.
  - intros regs Hr. now apply returns_ret.
Qed.

Lemma coletar_itens_columns :
  returns (coletar_itens fromisoformat) (Forall has_columns).
Proof.
  unfold coletar_itens.
  repeat (eapply returns_bind; [apply returns_any | intros ? _]).
  intros w res w' Hrun.
  eapply (returns_while _ (fun st => Forall has_columns (fst st))); [| | exact Hrun].
  - intros [registros pagina] Hst. now apply collect_page_columns.
  - constructor.
Qed.

(** The columns of a DataFrame built from such records. *)
Lemma columns_known (ks cols : list string) :
  Forall (fun k => k ∈ cols) ks ->
  fold_left (fun cols k => if bool_decide (k ∈ cols) then cols else cols ++ [k]) ks cols
  = cols.
Proof.
  induction 1 as [| k ks Hk _ IH]; cbn [fold_left]; [reflexivity |].
  rewrite bool_decide_eq_true_2 by exact Hk. exact IH.
Qed.

Lemma columns_of_records rec dados :
  Forall has_columns (rec :: dados) -> columns (rec :: dados) = colunas_finais.
Proof.
  intros Hall. inversion Hall as [| ? ? Hrec Hdados]; subst.
  unfold columns. cbn [map concat]. rewrite fold_left_app, Hrec.
  change (fold_left _ colunas_finais []) with colunas_finais.
  apply columns_known. apply Forall_concat. apply Forall_map.
  eapply List.Forall_impl; [| exact Hdados]. intros r Hr. cbn. rewrite Hr.
  apply Forall_forall. auto.
Qed.

Lemma project_record rec :
  has_columns rec ->
  map (fun c => get_default rec c VNone) colunas_finais = map snd rec.
Proof.
  unfold has_columns, colunas_finais. intros H.
  repeat (destruct rec as [| [? ?] rec]; [discriminate |];
          cbn [map fst] in H; injection H as -> H).
  destruct rec; [reflexivity | discriminate].
Qed.

Lemma main_of_records dados w w' :
  coletar_itens fromisoformat w = (Ret dados, w') ->
  Forall has_columns dados ->
  main fromisoformat w = (Ret (Sellers.mkcsv colunas_finais (map (map snd) dados)), w').
Proof.
  intros Hrun Hall. unfold main, bind. rewrite Hrun.
  destruct dados as [| rec dados]; [reflexivity |].
  unfold df_empty. rewrite (columns_of_records _ _ Hall).
  change (forallb _ colunas_finais) with true. cbv iota beta. unfold ret.
  do 3 f_equal. apply map_ext_Forall.
  eapply List.Forall_impl; [| exact Hall]. intros r Hr. now apply project_record.
Qed.

(** *** The three attempts at an order *)

(** A reply the retry loop counts as a failed attempt: the transport
    raises, the status is not 200, or the body is no JSON. *)
Definition detail_fails (r : reply) : bool :=
  match r with
  | ConnError => true
  | Resp resp =>
      negb (Z.eqb (status_code resp) 200)
      || match body resp with None => true | Some _ => false end
  end.

Lemma fetch_pedido_failed order_id n w r rest :
  pending w = r :: rest -> detail_fails r = true ->
  fetch_pedido order_id (S n) w
  = fetch_pedido order_id n (advance (OrderDetails order_id) w).
Proof.
  intros Hp Hf. cbn [fetch_pedido].
  unfold bind at 1. unfold try_except_request, bind, requests_get, advance. rewrite Hp.
  destruct r as [| [sc b]]; [reflexivity |].
  cbn [detail_fails status_code body] in Hf. cbn [status_code].
  destruct (Z.eqb sc 200); [| reflexivity].
  destruct b; [discriminate | reflexivity].
Qed.

Lemma fetch_pedido_fetched order_id n w sc pedido rest :
  pending w = Resp (mkresp sc (Some pedido)) :: rest -> sc = 200 ->
  fetch_pedido order_id (S n) w = (Ret pedido, advance (OrderDetails order_id) w).
Proof.
  intros Hp ->. cbn [fetch_pedido].
  unfold bind at 1. unfold try_except_request, bind, requests_get, advance. rewrite Hp.
  reflexivity.
Qed.

Lemma fetch_pedido_three_failures order_id w r1 r2 r3 rest :
  pending w = r1 :: r2 :: r3 :: rest ->
  detail_fails r1 = true -> detail_fails r2 = true -> detail_fails r3 = true ->
  fetch_pedido order_id 3 w
  = (Ret VNone,
     mkworld rest
       (sent w ++ [OrderDetails order_id; OrderDetails order_id; OrderDetails order_id])
       (clock w) (reads w)).
Proof.
  intros Hp H1 H2 H3.
  rewrite (fetch_pedido_failed _ _ _ _ _ Hp H1).
  rewrite (fetch_pedido_failed _ _ _ r2 (r3 :: rest)); [| cbn; now rewrite Hp | exact H2].
  rewrite (fetch_pedido_failed _ _ _ r3 rest); [| cbn; now rewrite Hp | exact H3].
  unfold ret, advance. cbn [pending sent clock reads]. rewrite Hp. cbn [tail].
  rewrite <- !app_assoc. reflexivity.
Qed.

(** *** The tracing of the collector *)

Lemma traced_fetch_pedido order_id n : traced (fetch_pedido order_id n).
Proof.
  induction n as [| n IH]; cbn [fetch_pedido]; [apply traced_ret |].
  apply traced_bind.
  - apply traced_try; [| apply traced_ret].
    apply traced_bind; [apply traced_requests_get |]. intros r.
    apply traced_if; [| apply traced_ret].
    apply traced_bind; [| intros; apply traced_ret].
    unfold json. destruct (body r); [apply traced_ret | apply traced_raise].
  - intros [pedido |]; [apply traced_ret | exact IH].
Qed.

Lemma traced_agora_brasil : traced agora_brasil.
Proof.
  apply traced_bind; [apply traced_now_utc | intros; apply traced_lift].
Qed.

Lemma traced_add_item cd oid registros item : traced (add_item cd oid registros item).
Proof.
  unfold add_item.
  repeat (apply traced_bind; [apply traced_lift | intros ?]).
  apply traced_bind; [apply traced_agora_brasil | intros; apply traced_ret].
Qed.

Lemma traced_collect_order registros resumo :
  traced (collect_order fromisoformat registros resumo).
Proof.
  unfold collect_order.
  apply traced_bind; [apply traced_lift | intros order_id].
  apply traced_if; [apply traced_ret |].
  apply traced_bind; [apply traced_fetch_pedido | intros pedido].
  apply traced_if; [apply traced_ret |].
  repeat (apply traced_bind; [apply traced_lift | intros ?]).
  apply traced_for_each. intros s x. apply traced_add_item.
Qed.

(** *** When the page loop stops *)

(** The replies that end the page loop: a status other than 200, or a JSON
    object whose ['list'] is absent or empty. *)
Definition page_ends (r : reply) : bool :=
  match r with
  | ConnError => false
  | Resp resp =>
      negb (Z.eqb (status_code resp) 200)
      || match body resp with
         | Some (VDict d) => negb (truthy (get_default d "list" (VList [])))
         | _ => false
         end
  end.

(** What follows the page request in a round. *)
Definition after_page (registros : list record) (pagina : Z) (r : response)
  : M (ctl (list record * Z) (list record)) :=
  if negb (Z.eqb (status_code r) 200) then ret (Break registros)
  else
    data <- json r ;;
    pedidos <- lift (py_get data "list" (VList [])) ;;
    if negb (truthy pedidos) then ret (Break registros)
    else
      xs <- lift (py_iter pedidos) ;;
      registros <- for_each xs (collect_order fromisoformat) registros ;;
      ret (Continue (registros, pagina + 1)).

Lemma collect_page_unfold i_utc f_utc registros pagina :
  collect_page fromisoformat i_utc f_utc (registros, pagina)
  = bind (requests_get (OrderList i_utc f_utc pagina)) (after_page registros pagina).
Proof. reflexivity. Qed.

Lemma traced_after_page registros pagina r : traced (after_page registros pagina r).
Proof.
  unfold after_page. apply traced_if; [apply traced_ret |].
  apply traced_bind.
  { unfold json. destruct (body r); [apply traced_ret | apply traced_raise]. }
  intros data. apply traced_bind; [apply traced_lift | intros pedidos].
  apply traced_if; [apply traced_ret |].
  apply traced_bind; [apply traced_lift | intros xs].
  apply traced_bind; [| intros; apply traced_ret].
  apply traced_for_each. intros s x. apply traced_collect_order.
Qed.

Lemma traced_collect_page i_utc f_utc st :
  traced (collect_page fromisoformat i_utc f_utc st).
Proof.
  destruct st as [registros pagina]. rewrite collect_page_unfold.
  apply traced_bind; [apply traced_requests_get | intros r; apply traced_after_page].
Qed.

(** A reply that ends the loop does so at once: the round returns the
    records as they are, after its one request. *)
Lemma collect_page_ends i_utc f_utc registros pagina w r rest :
  pending w = r :: rest -> page_ends r = true ->
  collect_page fromisoformat i_utc f_utc (registros, pagina) w
  = (Ret (Break registros), advance (OrderList i_utc f_utc pagina) w).
Proof.
  intros Hp He. rewrite collect_page_unfold.
  unfold bind at 1. unfold requests_get, advance. rewrite Hp.
  destruct r as [| [sc b]]; [discriminate |].
  unfold after_page. cbn [page_ends status_code body] in *.
  destruct (Z.eqb sc 200); cbn [negb orb] in *; [| reflexivity].
  destruct b as [[| | | | | d] |]; try discriminate.
  unfold bind, json, lift, py_get. cbn [body]. unfold ret. rewrite He. reflexivity.
Qed.

(** A page request on which the transport raises ends the run with that
    exception: the script has no handler around it. *)
Lemma collect_page_conn_error i_utc f_utc registros pagina w rest :
  pending w = ConnError :: rest ->
  collect_page fromisoformat i_utc f_utc (registros, pagina) w
  = (Raise RequestException, advance (OrderList i_utc f_utc pagina) w).
Proof.
  intros Hp. rewrite collect_page_unfold. unfold bind, requests_get, advance.
  rewrite Hp. reflexivity.
Qed.

(** A round that breaks the loop met such a reply; one that continues met
    another, moved to the next page, and took at least that reply. *)
Lemma collect_page_returns i_utc f_utc registros pagina w c w' :
  collect_page fromisoformat i_utc f_utc (registros, pagina) w = (Ret c, w') ->
  exists r rest,
    pending w = r :: rest /\
    extends (advance (OrderList i_utc f_utc pagina) w) w' /\
    match c with
    | Break res =>
        page_ends r = true /\ res = registros /\
        w' = advance (OrderList i_utc f_utc pagina) w
    | Continue st => page_ends r = false /\ snd st = pagina + 1
    end.
Proof.
  rewrite collect_page_unfold. unfold bind at 1.
  destruct (pending w) as [| r rest] eqn:Hp.
  { unfold requests_get. rewrite Hp. discriminate. }
  assert (Hget : requests_get (OrderList i_utc f_utc pagina) w
                 = (match r with
                    | ConnError => Raise RequestException
                    | Resp resp => Ret resp
                    end, advance (OrderList i_utc f_utc pagina) w)).
  { unfold requests_get, advance. rewrite Hp. destruct r; reflexivity. }
  rewrite Hget. destruct r as [| resp]; [discriminate |].
  set (w1 := advance (OrderList i_utc f_utc pagina) w) in *.
  intros Hafter. exists (Resp resp), rest. split; [reflexivity |].
  split. { pose proof (traced_after_page registros pagina resp w1) as Ht.
           now rewrite Hafter in Ht. }
  destruct (page_ends (Resp resp)) eqn:He.
  - pose proof (collect_page_ends i_utc f_utc registros pagina w _ _ Hp He) as Hc.
    rewrite collect_page_unfold in Hc. unfold bind at 1 in Hc. rewrite Hget in Hc.
    fold w1 in Hc. rewrite Hc in Hafter. injection Hafter as <- <-. auto.
  - revert Hafter. unfold after_page. cbn [page_ends] in He.
    apply orb_false_iff in He as [Hsc Hlist]. rewrite Hsc.
    unfold bind, json. destruct (body resp) as [data |]; [| discriminate].
    unfold ret at 1. unfold lift, py_get.
    destruct data as [| | | | | d]; try discriminate.
    unfold ret at 1. rewrite Hlist.
    destruct (py_iter _) as [| xs]; [discriminate |]. unfold ret at 1.
    destruct (for_each xs _ registros w1) as [[regs | | |] w2]; try discriminate.
    intros [= <- <-]. auto.
Qed.

(** A run of the page loop that returns: the last reply it took ends the
    loop, and the request that reply answers, a page request, is the last
    one sent. *)
Lemma while_collect_returns i_utc f_utc (fuel : nat) :
  forall registros pagina w res w',
    while_true fuel (collect_page fromisoformat i_utc f_utc) (registros, pagina) w
    = (Ret res, w') ->
    exists consumed r log p,
      pending w = consumed ++ r :: pending w' /\ page_ends r = true /\
      sent w' = sent w ++ log ++ [OrderList i_utc f_utc p].
Proof.
  induction fuel as [| fuel IH]; intros registros pagina w res w' Hrun; [discriminate |].
  cbn [while_true] in Hrun. unfold bind in Hrun.
  destruct (collect_page _ _ _ _ w) as [[c | | |] w1] eqn:Hc; try discriminate.
  apply collect_page_returns in Hc as (r & rest & Hp & Hext & Hcase).
  destruct c as [[regs1 p1] | res1].
  - apply IH in Hrun as (c2 & r2 & log2 & p' & Hp2 & He2 & Hs2).
    destruct Hext as (c1 & l1 & Hp1 & Hs1 & _).
    cbn [advance pending sent] in Hp1, Hs1. rewrite Hp in Hp1. cbn [tail] in Hp1.
    exists (r :: c1 ++ c2), r2, (OrderList i_utc f_utc pagina :: l1 ++ log2), p'.
    split; [| split; [exact He2 |]].
    + rewrite Hp, Hp1, Hp2. cbn [app]. now rewrite <- app_assoc.
    + rewrite Hs2, Hs1. cbn [app]. rewrite <- !app_assoc. reflexivity.
  - destruct Hcase as (He & -> & ->). unfold ret in Hrun. injection Hrun as <- <-.
    exists [], r, [], pagina. cbn [advance pending sent app].
    rewrite Hp. cbn [tail]. auto.
Qed.

Lemma fuelless_fetch_pedido order_id n : fuelless (fetch_pedido order_id n).
Proof.
  induction n as [| n IH]; cbn [fetch_pedido]; [apply fuelless_ret |].
  apply fuelless_bind.
  - apply fuelless_try; [| apply fuelless_ret].
    apply fuelless_bind; [apply fuelless_requests_get |]. intros r.
    apply fuelless_if; [| apply fuelless_ret].
    apply fuelless_bind; [| intros; apply fuelless_ret].
    unfold json. destruct (body r); [apply fuelless_ret | apply fuelless_raise].
  - intros [pedido |]; [apply fuelless_ret | exact IH].
Qed.

Lemma fuelless_collect_order registros resumo :
  fuelless (collect_order fromisoformat registros resumo).
Proof.
  unfold collect_order.
  apply fuelless_bind; [apply fuelless_lift | intros order_id].
  apply fuelless_if; [apply fuelless_ret |].
  apply fuelless_bind; [apply fuelless_fetch_pedido | intros pedido].
  apply fuelless_if; [apply fuelless_ret |].
  repeat (apply fuelless_bind; [apply fuelless_lift | intros ?]).
  apply fuelless_for_each. intros s x. unfold add_item.
  repeat (apply fuelless_bind; [apply fuelless_lift | intros ?]).
  apply fuelless_bind; [| intros; apply fuelless_ret].
  apply fuelless_bind; [apply fuelless_now_utc | intros; apply fuelless_lift].
Qed.

Lemma fuelless_collect_page i_utc f_utc st :
  fuelless (collect_page fromisoformat i_utc f_utc st).
Proof.
  destruct st as [registros pagina]. rewrite collect_page_unfold.
  apply fuelless_bind; [apply fuelless_requests_get | intros r].
  unfold after_page. apply fuelless_if; [apply fuelless_ret |].
  apply fuelless_bind.
  { unfold json. destruct (body r); [apply fuelless_ret | apply fuelless_raise]. }
  intros data. apply fuelless_bind; [apply fuelless_lift | intros pedidos].
  apply fuelless_if; [apply fuelless_ret |].
  apply fuelless_bind; [apply fuelless_lift | intros xs].
  apply fuelless_bind; [| intros; apply fuelless_ret].
  apply fuelless_for_each. intros s x. apply fuelless_collect_order.
Qed.

(** The bound on the page loop is never what ends a run: every round takes
    at least the reply to its page request. *)
Lemma while_collect_fuel i_utc f_utc (fuel : nat) :
  forall st w, (length (pending w) < fuel)%nat ->
    fst (while_true fuel (collect_page fromisoformat i_utc f_utc) st w) <> OutOfFuel.
Proof.
  induction fuel as [| fuel IH]; intros [registros pagina] w Hlen; [inversion Hlen |].
  cbn [while_true]. unfold bind.
  pose proof (fuelless_collect_page i_utc f_utc (registros, pagina) w) as Hfl.
  destruct (collect_page _ _ _ _ w) as [[c | | |] w1] eqn:Hc; cbn [fst] in *;
    try discriminate; [| contradiction].
  apply collect_page_returns in Hc as (r & rest & Hp & Hext & _).
  destruct c as [st1 | res1]; [| discriminate].
  apply IH. apply extends_length in Hext. cbn [advance pending] in Hext.
  rewrite Hp in Hext, Hlen. cbn [tail length] in *. lia.
Qed.

(** [gerar_intervalo] reads the clock once and talks to no one. *)
Lemma gerar_intervalo_world w :
  snd (gerar_intervalo w) = mkworld (pending w) (sent w) (clock w) (S (reads w)).
Proof.
  unfold gerar_intervalo, agora_brasil, bind, now_utc, lift.
  destruct (astimezone _ BRT) as [e | agora]; [reflexivity |]. unfold ret at 1.
  destruct (add agora (-4) 0 0); reflexivity.
Qed.

Lemma coletar_itens_unfold w :
  coletar_itens fromisoformat w
  = match gerar_intervalo w with
    | (Ret iv, w1) =>
        match astimezone (fst iv) 0, astimezone (snd iv) 0 with
        | inr i_utc, inr f_utc =>
            while_true (S (length (pending w1)))
                       (collect_page fromisoformat i_utc f_utc) ([], 1) w1
        | inl e, _ | inr _, inl e => (Raise e, w1)
        end
    | (Raise e, w1) => (Raise e, w1)
    | (Starved, w1) => (Starved, w1)
    | (OutOfFuel, w1) => (OutOfFuel, w1)
    end.
Proof.
  unfold coletar_itens, bind.
  destruct (gerar_intervalo w) as [[iv | | |] w1]; try reflexivity.
  unfold lift. destruct (astimezone iv.1 0); [reflexivity |].
  unfold ret at 1. destruct (astimezone iv.2 0); reflexivity.
Qed.

Lemma coletar_itens_returns w res w' :
  coletar_itens fromisoformat w = (Ret res, w') ->
  exists consumed r log i_utc f_utc p,
    pending w = consumed ++ r :: pending w' /\ page_ends r = true /\
    sent w' = sent w ++ log ++ [OrderList i_utc f_utc p].
Proof.
  rewrite coletar_itens_unfold. pose proof (gerar_intervalo_world w) as Hw.
  destruct (gerar_intervalo w) as [[iv | | |] w1]; try discriminate.
  cbn [snd] in Hw. subst w1.
  destruct (astimezone iv.1 0) as [| i_utc]; [discriminate |].
  destruct (astimezone iv.2 0) as [| f_utc]; [discriminate |].
  intros Hrun.
  apply while_collect_returns in Hrun as (consumed & r & log & p & Hp & He & Hs).
  exists consumed, r, log, i_utc, f_utc, p. auto.
Qed.

Lemma coletar_itens_fuel w : fst (coletar_itens fromisoformat w) <> OutOfFuel.
Proof.
  rewrite coletar_itens_unfold.
  assert (Hg : fst (gerar_intervalo w) <> OutOfFuel).
  { unfold gerar_intervalo, agora_brasil.
    repeat first [apply fuelless_bind | apply fuelless_now_utc | apply fuelless_lift
                 | apply fuelless_ret | intros ?]. }
  destruct (gerar_intervalo w) as [[iv | | |] w1]; cbn [fst] in *; try discriminate;
    [| contradiction].
  destruct (astimezone iv.1 0); [discriminate |].
  destruct (astimezone iv.2 0); [discriminate |].
  apply while_collect_fuel. lia.
Qed.

End Coleta.

End PedidosFacts.

(** ** The claims about the paginated fetcher and the detail resolver *)
Module FetchClaims.
Import Py DateTime Run RunFacts Sellers SellersFacts.
Local Open Scope list_scope.

Definition noon_utc : datetime := mkdt 2024 6 10 18 0 0 0 0.

(** A world whose transport plays the script [rs]. *)
Definition script (rs : list reply) : world := mkworld rs [] (fun _ => noon_utc) O.

Definition ok (v : value) : reply := Resp (mkresp 200 (Some v)).

Definition seller_a : value := VDict [("id", VStr "a")].
Definition seller_b : value := VDict [("SellerId", VInt 7); ("Name", VStr "b")].
Definition seller_c : value := VDict [("sellerId", VStr "c")].
Definition anonymous : value := VDict [("name", VStr "x")].

(** Two pages of a catalogue of three sellers; the second repeats [b]. *)
Definition page_one : reply :=
  ok (VDict [("items", VList [seller_a; seller_b; seller_a; anonymous]);
             ("paging", VDict [("total", VInt 3)])]).
Definition page_two : reply :=
  ok (VDict [("items", VList [seller_b; seller_c])]).

Example two_pages_run :
  get_all_sellers (script [page_one; page_two; ConnError])
  = (Ret [seller_a; seller_b; seller_c],
     mkworld [ConnError] [SellerList; SellerList] (fun _ => noon_utc) O).
Proof. vm_compute. reflexivity. Qed.

(** C1 (amended). When every document a returning run of [get_all_sellers]
    read was a JSON object, no two entities of its result have the same
    resolved identifier: they are identified by pairwise distinct keys.
    Each of them is an entity some page delivered, as delivered. (A
    document that is a bare list is returned as the result, as it is.) *)
Theorem get_all_sellers_no_duplicates (w : world) (res : list value) (w' : world)
                                      (consumed : list reply) :
  get_all_sellers w = (Ret res, w') ->
  pending w = consumed ++ pending w' ->
  Forall (fun r => forall v, reply_json r = Some v -> is_dict v = true) consumed ->
  (exists ks, Forall2 identified res ks /\ NoDup ks) /\
  Forall (delivered_by consumed) res.
Proof. apply get_all_sellers_objects. Qed.

Lemma get_all_sellers_no_duplicates_witness :
  (exists ks, Forall2 identified [seller_a; seller_b; seller_c] ks /\ NoDup ks) /\
  Forall (delivered_by [page_one; page_two]) [seller_a; seller_b; seller_c].
Proof.
  apply (get_all_sellers_no_duplicates
           (script [page_one; page_two; ConnError]) _
           (mkworld [ConnError] [SellerList; SellerList] (fun _ => noon_utc) O)).
  - vm_compute. reflexivity.
  - reflexivity.
  - repeat constructor; intros v [= <-]; reflexivity.
Defined.

(** The catalogue answers with a bare list that holds [seller_a] twice:
    both copies are in the result. *)
Lemma bare_list_duplicates_counterexample :
  fst (get_all_sellers (script [ok (VList [seller_a; seller_a])]))
  = Ret [seller_a; seller_a] /\
  identified seller_a (KStr "a") /\
  (forall ks, Forall2 identified [seller_a; seller_a] ks -> ~ NoDup ks).
Proof.
  split; [vm_compute; reflexivity |]. split.
  - exists [("id", VStr "a")]. repeat split.
  - intros ks Hks Hnd.
    inversion Hks as [| ? k1 ? ks1 Hid1 Hks1]; subst.
    inversion Hks1 as [| ? k2 ? ks2 Hid2 Hks2]; subst.
    destruct Hid1 as (d1 & Hd1 & _ & Hk1). destruct Hid2 as (d2 & Hd2 & _ & Hk2).
    unfold seller_a in Hd1, Hd2. injection Hd1 as <-. injection Hd2 as <-.
    cbn in Hk1, Hk2. injection Hk1 as <-. injection Hk2 as <-.
    apply NoDup_cons in Hnd as [Hin _]. apply Hin. now left.
Qed.

(** C6 (amended). When every document a returning run of [get_all_sellers]
    read was a JSON object, every entity of its result is a dict whose
    resolved identifier is non-empty; and [coletar_itens] passes over an
    order summary without ['orderId']: no request, no record. *)
Theorem unidentified_never_accumulated :
  (forall (w : world) (res : list value) (w' : world) (consumed : list reply),
     get_all_sellers w = (Ret res, w') ->
     pending w = consumed ++ pending w' ->
     Forall (fun r => forall v, reply_json r = Some v -> is_dict v = true) consumed ->
     Forall (fun e => exists d, e = VDict d /\ truthy (resolve_id d) = true) res) /\
  (forall fromisoformat registros (d : list (string * value)) (w : world),
     truthy (get_default d "orderId" VNone) = false ->
     PedidosItens.collect_order fromisoformat registros (VDict d) w = (Ret registros, w)).
Proof.
  split.
  - intros w res w' consumed Hrun Hcons Hdict.
    destruct (get_all_sellers_objects _ _ _ _ Hrun Hcons Hdict) as [(ks & Hid & _) _].
    clear Hrun. induction Hid as [| e k res ks (d & -> & Ht & _) _ IH]; [constructor |].
    constructor; [exists d; split; [reflexivity | exact Ht] | exact IH].
  - intros fromisoformat registros d w Hid.
    unfold PedidosItens.collect_order, bind, lift, py_get. unfold ret at 1.
    now rewrite Hid.
Qed.

Lemma unidentified_never_accumulated_witness :
  Forall (fun e => exists d, e = VDict d /\ truthy (resolve_id d) = true)
         [seller_a; seller_b; seller_c] /\
  PedidosItens.collect_order (fun _ => inl ValueError) [] (VDict [("status", VStr "x")])
                             (script [])
  = (Ret [], script []).
Proof.
  split.
  - apply (proj1 unidentified_never_accumulated
             (script [page_one; page_two; ConnError]) _
             (mkworld [ConnError] [SellerList; SellerList] (fun _ => noon_utc) O)
             [page_one; page_two]).
    + vm_compute. reflexivity.
    + reflexivity.
    + repeat constructor; intros v [= <-]; reflexivity.
  - apply (proj2 unidentified_never_accumulated). reflexivity.
Defined.

(** The catalogue answers with a bare list that holds an entity without
    any identifier field: the entity is in the result. *)
Lemma bare_list_unidentified_counterexample :
  fst (get_all_sellers (script [ok (VList [anonymous])])) = Ret [anonymous] /\
  anonymous = VDict [("name", VStr "x")] /\
  truthy (resolve_id [("name", VStr "x")]) = false.
Proof. split; [vm_compute; reflexivity |]. split; reflexivity. Qed.

(** C9. [get_seller_details] never raises; when its request fails (the
    transport raises, the status is a 4xx or 5xx, or the body is no JSON)
    it has made its one request, taken that one reply, and returns [{}]. *)
Theorem get_seller_details_failure (seller_id : value) (w : world) :
  (forall e, fst (get_seller_details seller_id w) <> Raise e) /\
  (forall r rest,
     pending w = r :: rest -> request_fails r = true ->
     get_seller_details seller_id w
     = (Ret (VDict []), advance (SellerDetails seller_id) w)).
Proof.
  split.
  - intros e. apply get_seller_details_no_raise.
  - intros r rest. apply get_seller_details_failed.
Qed.

Lemma get_seller_details_failure_witness :
  get_seller_details (VStr "a") (script [Resp (mkresp 503 None); ok seller_a])
  = (Ret (VDict []), mkworld [ok seller_a] [SellerDetails (VStr "a")] (fun _ => noon_utc) O).
Proof.
  apply (proj2 (get_seller_details_failure (VStr "a")
                  (script [Resp (mkresp 503 None); ok seller_a]))
               (Resp (mkresp 503 None)) [ok seller_a]); reflexivity.
Defined.

(** A page with the one order [A], whose three detail requests fail, and
    then an empty page. *)
Definition order_page : reply :=
  ok (VDict [("list", VList [VDict [("orderId", VStr "A")]])]).
Definition empty_page : reply := ok (VDict [("list", VList [])]).

(** A [datetime.fromisoformat] that accepts nothing; the runs below never
    call it. *)
Definition rejects_all : string -> exn + datetime := fun _ => inl ValueError.

Definition window_start_utc : datetime := mkdt 2024 6 6 3 0 0 0 0.
Definition window_end_utc : datetime := mkdt 2024 6 11 2 59 59 0 0.

(** C2 (amended). In [export_sellers], a seller whose detail request fails
    (one attempt) is kept as the summary entity it was, unmodified. In
    [coletar_itens], an order whose three attempts fail is left out: after
    the three requests the records are what they were. *)
Theorem detail_failure_outcome :
  (forall (detailed : list value) (d : list (string * value)) (w : world)
          (r : reply) (rest : list reply),
     truthy (py_or (get_default d "id" VNone) (get_default d "sellerId" VNone)) = true ->
     pending w = r :: rest -> request_fails r = true ->
     add_details detailed (VDict d) w
     = (Ret (detailed ++ [VDict d]),
        advance (SellerDetails
                   (py_or (get_default d "id" VNone) (get_default d "sellerId" VNone))) w)) /\
  (forall fromisoformat (registros : list PedidosItens.record)
          (d : list (string * value)) (w : world) (r1 r2 r3 : reply) (rest : list reply),
     truthy (get_default d "orderId" VNone) = true ->
     pending w = r1 :: r2 :: r3 :: rest ->
     PedidosFacts.detail_fails r1 = true ->
     PedidosFacts.detail_fails r2 = true ->
     PedidosFacts.detail_fails r3 = true ->
     PedidosItens.collect_order fromisoformat registros (VDict d) w
     = (Ret registros,
        mkworld rest
          (sent w ++ [OrderDetails (get_default d "orderId" VNone);
                      OrderDetails (get_default d "orderId" VNone);
                      OrderDetails (get_default d "orderId" VNone)])
          (clock w) (reads w))).
Proof.
  split.
  - intros detailed d w r rest Hid Hp Hf.
    unfold add_details, bind, lift, py_get, py_or in *. unfold ret at 1.
    destruct (truthy (get_default d "id" VNone)) eqn:Hid1.
    + unfold ret at 1. rewrite Hid1.
      rewrite (get_seller_details_failed _ _ _ _ Hp Hf). reflexivity.
    + unfold ret at 1. rewrite Hid.
      rewrite (get_seller_details_failed _ _ _ _ Hp Hf). reflexivity.
  - intros fromisoformat registros d w r1 r2 r3 rest Hid Hp H1 H2 H3.
    unfold PedidosItens.collect_order, bind, lift, py_get. unfold ret at 1.
    rewrite Hid. cbn [negb].
    rewrite (PedidosFacts.fetch_pedido_three_failures _ _ _ _ _ _ Hp H1 H2 H3).
    reflexivity.
Qed.

Lemma detail_failure_outcome_witness :
  add_details [] seller_a (script [ConnError])
  = (Ret [seller_a], mkworld [] [SellerDetails (VStr "a")] (fun _ => noon_utc) O) /\
  PedidosItens.collect_order rejects_all [] (VDict [("orderId", VStr "A")])
    (script [ConnError; Resp (mkresp 500 None); Resp (mkresp 200 None)])
  = (Ret [],
     mkworld [] [OrderDetails (VStr "A"); OrderDetails (VStr "A"); OrderDetails (VStr "A")]
             (fun _ => noon_utc) O).
Proof.
  split.
  - apply (proj1 detail_failure_outcome [] [("id", VStr "a")] (script [ConnError])
                 ConnError []); reflexivity.
  - apply (proj2 detail_failure_outcome rejects_all [] [("orderId", VStr "A")]
                 (script [ConnError; Resp (mkresp 500 None); Resp (mkresp 200 None)])
                 ConnError (Resp (mkresp 500 None)) (Resp (mkresp 200 None)) []);
      reflexivity.
Defined.

(** The summary of order [A] is held, its three detail requests fail, and
    the run returns no record at all: the order is not in the output. *)
Lemma order_dropped_counterexample :
  PedidosItens.coletar_itens rejects_all
    (script [order_page; ConnError; Resp (mkresp 500 None); ConnError; empty_page])
  = (Ret [],
     mkworld []
       [OrderList window_start_utc window_end_utc 1;
        OrderDetails (VStr "A"); OrderDetails (VStr "A"); OrderDetails (VStr "A");
        OrderList window_start_utc window_end_utc 2]
       (fun _ => noon_utc) 1%nat) /\
  PedidosFacts.detail_fails ConnError = true /\
  PedidosFacts.detail_fails (Resp (mkresp 500 None)) = true.
Proof. split; [vm_compute; reflexivity | split; reflexivity]. Qed.

(** C3 (amended). With no record collected, [main] of [pedidos_itens.py]
    still writes a file: the header alone, the final columns in their
    declared order. [export_to_csv], given an empty list, returns without
    writing any file. *)
Theorem empty_input_output :
  (forall (set_iter : gset string -> list string) (filename : option string),
     export_to_csv set_iter [] filename = None) /\
  (forall fromisoformat (w w' : world),
     PedidosItens.coletar_itens fromisoformat w = (Ret [], w') ->
     PedidosItens.main fromisoformat w
     = (Ret (mkcsv PedidosItens.colunas_finais []), w')).
Proof.
  split; [reflexivity |].
  intros fromisoformat w w' Hrun. unfold PedidosItens.main, bind. rewrite Hrun.
  reflexivity.
Qed.

Lemma empty_input_output_witness :
  PedidosItens.main rejects_all (script [empty_page])
  = (Ret (mkcsv [ "creationDate"; "orderId"; "additionalInfo_categories"; "name";
                  "price"; "listPrice"; "quantity"; "productId"; "seller";
                  "data_extracao" ] []),
     mkworld [] [OrderList window_start_utc window_end_utc 1] (fun _ => noon_utc) 1%nat).
Proof.
  apply (proj2 empty_input_output rejects_all (script [empty_page])).
  vm_compute. reflexivity.
Defined.

(** [export_to_csv] on the empty list: no file. *)
Lemma export_empty_counterexample :
  export_to_csv elements [] None = None /\
  ~ (exists file, export_to_csv elements [] None = Some file).
Proof. split; [reflexivity |]. intros [file H]. discriminate. Qed.

(** C10. Every record [coletar_itens] returns has exactly the ten final
    columns as its keys, in their order; so [main] projects them without a
    [KeyError], each line being the values of its record. *)
Theorem registros_have_final_columns fromisoformat (w : world)
        (registros : list PedidosItens.record) (w' : world) :
  PedidosItens.coletar_itens fromisoformat w = (Ret registros, w') ->
  Forall (fun rec => map fst rec = PedidosItens.colunas_finais) registros /\
  PedidosItens.main fromisoformat w
  = (Ret (mkcsv PedidosItens.colunas_finais (map (map snd) registros)), w').
Proof.
  intros Hrun.
  pose proof (PedidosFacts.coletar_itens_columns fromisoformat _ _ _ Hrun) as Hcols.
  split; [exact Hcols |]. now apply PedidosFacts.main_of_records.
Qed.

Definition pedido_A : value :=
  VDict [("orderId", VStr "A");
         ("items", VList [VDict [("name", VStr "caneta"); ("quantity", VInt 2);
                                 ("additionalInfo", VDict [("categories", VList [])])]])].

Definition record_A : PedidosItens.record :=
  [ ("creationDate", VNone); ("orderId", VStr "A");
    ("additionalInfo_categories", VList []); ("name", VStr "caneta");
    ("price", VNone); ("listPrice", VNone); ("quantity", VInt 2);
    ("productId", VNone); ("seller", VNone);
    ("data_extracao", VStr "2024-06-10 15:00:00") ].

Lemma registros_have_final_columns_witness :
  Forall (fun rec => map fst rec = PedidosItens.colunas_finais) [record_A] /\
  PedidosItens.main rejects_all (script [order_page; ok pedido_A; empty_page])
  = (Ret (mkcsv PedidosItens.colunas_finais (map (map snd) [record_A])),
     mkworld []
       [OrderList window_start_utc window_end_utc 1; OrderDetails (VStr "A");
        OrderList window_start_utc window_end_utc 2]
       (fun _ => noon_utc) 2%nat).
Proof.
  apply (registros_have_final_columns rejects_all
           (script [order_page; ok pedido_A; empty_page])).
  vm_compute. reflexivity.
Defined.

(** C7 (amended). Both fetchers send one page request per round and none
    after the round that stops.

    A round of [get_all_sellers] is decided by the one reply it takes; it
    breaks the loop exactly when the request fails (transport, 4xx/5xx
    status, body that is no JSON), or the document is no JSON object, or
    the accumulated count has reached the declared total, or the page
    brought nothing new (as a page without items does); a round that goes
    on met none of these. A run returns at the first reply that stops it,
    having sent one request per reply up to that one, the rest of the
    script untouched.

    A round of [coletar_itens] breaks the loop exactly when the reply to
    its page request has a status other than 200 or a JSON object whose
    ['list'] is absent or empty; it then returns at once. A page request
    on which the transport raises ends the run with that exception. A
    returning run ends on a reply that breaks the loop, and the page
    request it answers is the last request sent. *)
Theorem paginated_fetchers_stop :
  (forall st w r rest,
     pending w = r :: rest ->
     fetch_page st w = (round_result st r, advance SellerList w)) /\
  (forall st r, (exists res, round_result st r = Ret (Break res)) <-> stops st r) /\
  (forall st r st', round_result st r = Ret (Continue st') -> ~ stops st r) /\
  (forall st d,
     truthy (get_default d "items" (VList [])) = false ->
     page_scan st d = inr (all_sellers st, seen_ids st, O)) /\
  (forall w rs r rest st res,
     pending w = rs ++ r :: rest ->
     rounds (mkfs [] ∅ VNone) rs st ->
     round_result st r = Ret (Break res) ->
     get_all_sellers w
     = (Ret res,
        mkworld rest (sent w ++ repeat SellerList (S (length rs))) (clock w) (reads w))) /\
  (forall w res w',
     get_all_sellers w = (Ret res, w') ->
     exists rs r st,
       pending w = rs ++ r :: pending w' /\
       rounds (mkfs [] ∅ VNone) rs st /\ stops st r /\
       sent w' = sent w ++ repeat SellerList (S (length rs))) /\
  (forall fromisoformat i_utc f_utc registros pagina w r rest,
     pending w = r :: rest ->
     ((exists res w',
         PedidosItens.collect_page fromisoformat i_utc f_utc (registros, pagina) w
         = (Ret (Break res), w'))
      <-> PedidosFacts.page_ends r = true) /\
     (PedidosFacts.page_ends r = true ->
      PedidosItens.collect_page fromisoformat i_utc f_utc (registros, pagina) w
      = (Ret (Break registros), advance (OrderList i_utc f_utc pagina) w))) /\
  (forall fromisoformat i_utc f_utc registros pagina w rest,
     pending w = ConnError :: rest ->
     PedidosItens.collect_page fromisoformat i_utc f_utc (registros, pagina) w
     = (Raise RequestException, advance (OrderList i_utc f_utc pagina) w)) /\
  (forall fromisoformat w res w',
     PedidosItens.coletar_itens fromisoformat w = (Ret res, w') ->
     exists consumed r log i_utc f_utc p,
       pending w = consumed ++ r :: pending w' /\
       PedidosFacts.page_ends r = true /\
       sent w' = sent w ++ log ++ [OrderList i_utc f_utc p]).
Proof.
  split; [intros st w r rest; apply fetch_page_reply |].
  split; [apply round_breaks_iff |].
  split.
  { intros st r st' Hgo Hstop. apply round_breaks_iff in Hstop as [res Hres].
    rewrite Hgo in Hres. discriminate. }
  split; [apply page_scan_no_items |].
  split.
  { intros w rs r rest st res Hp Hrs Hbr. unfold get_all_sellers.
    apply (while_fetch_stops _ _ rs st r res rest w Hrs Hbr Hp).
    rewrite Hp, length_app. cbn [length]. lia. }
  split.
  { intros w res w' Hrun. unfold get_all_sellers in Hrun.
    apply while_fetch_returns in Hrun as (rs & r & st & Hp & Hrs & Hbr & Hs & _).
    exists rs, r, st. split; [exact Hp |]. split; [exact Hrs |].
    split; [| exact Hs]. apply round_breaks_iff. eauto. }
  split.
  { intros fromisoformat i_utc f_utc registros pagina w r rest Hp. split.
    - split.
      + intros (res & w' & Hc).
        apply PedidosFacts.collect_page_returns in Hc as (r' & rest' & Hp' & _ & He & _).
        rewrite Hp in Hp'. injection Hp' as <- _. exact He.
      + intros He. eexists _, _.
        exact (PedidosFacts.collect_page_ends _ _ _ _ _ _ _ _ Hp He).
    - intros He. exact (PedidosFacts.collect_page_ends _ _ _ _ _ _ _ _ Hp He). }
  split.
  { intros fromisoformat i_utc f_utc registros pagina w rest Hp.
    exact (PedidosFacts.collect_page_conn_error _ _ _ _ _ _ _ Hp). }
  intros fromisoformat w res w'. apply PedidosFacts.coletar_itens_returns.
Qed.

(** The fetcher of sellers stops at the second of three replies; the
    collector of orders at the empty page. *)
Lemma paginated_fetchers_stop_witness :
  get_all_sellers (script [page_one; page_two; ConnError])
  = (Ret [seller_a; seller_b; seller_c],
     mkworld [ConnError] [SellerList; SellerList] (fun _ => noon_utc) O) /\
  PedidosItens.collect_page rejects_all window_start_utc window_end_utc ([], 1)
    (script [empty_page; order_page])
  = (Ret (Break []),
     mkworld [order_page] [OrderList window_start_utc window_end_utc 1]
             (fun _ => noon_utc) O).
Proof.
  split.
  - apply (proj1 (proj2 (proj2 (proj2 (proj2 paginated_fetchers_stop))))
             (script [page_one; page_two; ConnError]) [page_one] page_two [ConnError]
             (mkfs [seller_a; seller_b] {[ KStr "a"; KNum 7 ]} (VInt 3))).
    + reflexivity.
    + econstructor; [| constructor]. vm_compute. reflexivity.
    + vm_compute. reflexivity.
  - apply (proj2 (proj1 (proj2 (proj2 (proj2 (proj2 (proj2 (proj2
             paginated_fetchers_stop))))))
             rejects_all window_start_utc window_end_utc [] 1
             (script [empty_page; order_page]) empty_page [order_page] eq_refl)).
    reflexivity.
Defined.

(** The catalogue answers the first request with a bare list of one seller
    never seen before; the run stops there, a second reply unasked for,
    though the request did not fail, the page was not empty, its one
    entity was new, and no total was declared. *)
Lemma bare_list_stops_counterexample :
  get_all_sellers (script [ok (VList [seller_a]); page_two])
  = (Ret [seller_a], mkworld [page_two] [SellerList] (fun _ => noon_utc) O) /\
  request_fails (ok (VList [seller_a])) = false /\
  reply_json (ok (VList [seller_a])) = Some (VList [seller_a]) /\
  identified seller_a (KStr "a") /\
  KStr "a" ∉ seen_ids (mkfs [] ∅ VNone).
Proof.
  split; [vm_compute; reflexivity |]. split; [reflexivity |]. split; [reflexivity |].
  split; [exists [("id", VStr "a")]; repeat split |]. set_solver.
Qed.

End FetchClaims.

(** ** The time window [gerar_intervalo] *)
Module WindowClaims.
Import Py DateTime Run PedidosItens.

(** An addition that stays within the day of its result: the date is read
    off the ordinal, the time off the seconds. *)
Lemma add_same_day (t : datetime) (dd ds o y mo d h mi sec : Z) :
  toordinal t + dd = o -> ord2ymd o = (y, mo, d) -> 0 < o <= MAXORDINAL ->
  hour t * 3600 + minute t * 60 + second t + ds = h * 3600 + mi * 60 + sec ->
  0 <= h < 24 -> 0 <= mi < 60 -> 0 <= sec < 60 ->
  0 <= microsecond t < 1000000 ->
  add t dd ds 0 = inr (mkdt y mo d h mi sec (microsecond t) (utcoffset t)).
Proof.
  intros Ho Hymd Hrange Hs Hh Hmi Hsec Hus. unfold add.
  rewrite !Z.add_0_r, (Z.div_small (microsecond t)), (Z.mod_small (microsecond t)) by lia.
  rewrite Z.add_0_r, Hs.
  assert (Hday : (h * 3600 + mi * 60 + sec) / 86400 = 0) by (apply Z.div_small; lia).
  assert (Hmod : (h * 3600 + mi * 60 + sec) mod 86400 = h * 3600 + mi * 60 + sec)
    by (apply Z.mod_small; lia).
  rewrite Hday, Hmod, Z.add_0_r, Ho, Hymd.
  replace (Z.ltb 0 o && Z.leb o MAXORDINAL) with true
    by (symmetry; apply andb_true_intro; split; [apply Z.ltb_lt | apply Z.leb_le]; lia).
  f_equal. f_equal; Z.to_euclidean_division_equations; lia.
Qed.

Ltac day_arith := unfold BRT, MAXORDINAL; cbn; lia.

(** 18 h UTC on 2024-06-10 is 15 h in Brasilia. *)
Lemma astimezone_brt_2024_06_10 (ss us : Z) :
  0 <= ss < 60 -> 0 <= us < 1000000 ->
  astimezone (mkdt 2024 6 10 18 0 ss us 0) BRT = inr (mkdt 2024 6 10 15 0 ss us BRT).
Proof.
  intros Hss Hus. unfold astimezone.
  rewrite (add_same_day _ _ _ 739047 2024 6 10 18 0 ss);
    [| reflexivity | reflexivity | day_arith ..].
  unfold replace_tzinfo. cbn [year month day hour minute second microsecond utcoffset].
  rewrite (add_same_day _ _ _ 739047 2024 6 10 15 0 ss);
    [reflexivity | reflexivity | reflexivity | day_arith ..].
Qed.

(** C4. When the clock reads 2024-06-10 18:00 UTC (any second of that
    minute), [agora_brasil] is 2024-06-10 15:00 at UTC-3, and the window of
    [gerar_intervalo] runs from 2024-06-06 00:00:00 to 2024-06-10 23:59:59,
    both at UTC-3. *)
Theorem window_of_2024_06_10 (w : world) (ss us : Z) :
  0 <= ss < 60 -> 0 <= us < 1000000 ->
  clock w (reads w) = mkdt 2024 6 10 18 0 ss us 0 ->
  fst (agora_brasil w) = Ret (mkdt 2024 6 10 15 0 ss us BRT) /\
  fst (gerar_intervalo w)
  = Ret (mkdt 2024 6 6 0 0 0 0 BRT, mkdt 2024 6 10 23 59 59 0 BRT).
Proof.
  intros Hss Hus Hclock.
  assert (Hagora : forall A (k : datetime -> M A),
            bind agora_brasil k w
            = k (mkdt 2024 6 10 15 0 ss us BRT)
                (mkworld (pending w) (sent w) (clock w) (S (reads w)))).
  { intros A k. unfold agora_brasil, bind, now_utc, lift.
    rewrite Hclock, (astimezone_brt_2024_06_10 ss us Hss Hus). reflexivity. }
  split.
  - unfold agora_brasil, bind, now_utc, lift.
    rewrite Hclock, (astimezone_brt_2024_06_10 ss us Hss Hus). reflexivity.
  - unfold gerar_intervalo. rewrite Hagora. unfold bind, lift.
    rewrite (add_same_day _ _ _ 739043 2024 6 6 15 0 ss);
      [| reflexivity | reflexivity | day_arith ..].
    reflexivity.
Qed.

Lemma window_of_2024_06_10_witness :
  fst (agora_brasil (FetchClaims.script [])) = Ret (mkdt 2024 6 10 15 0 0 0 (-10800)) /\
  fst (gerar_intervalo (FetchClaims.script []))
  = Ret (mkdt 2024 6 6 0 0 0 0 (-10800), mkdt 2024 6 10 23 59 59 0 (-10800)).
Proof.
  apply (window_of_2024_06_10 (FetchClaims.script []) 0 0); [lia | lia | reflexivity].
Defined.

End WindowClaims.

(** ** More on [get_all_sellers]: partial results, bounds, repeated pages *)
Module SellersMore.
Import Py DateTime Run RunFacts Sellers SellersFacts.
Local Open Scope list_scope.

(** [covered seen x]: if [x] is an entity with a non-empty identifier, the
    identifier is hashable and its key is in [seen]. *)
Definition covered (seen : gset key) (x : value) : Prop :=
  forall d, x = VDict d -> truthy (resolve_id d) = true ->
            exists k, hash_key (resolve_id d) = Some k /\ k ∈ seen.

Lemma scan_seller_covers acc x all' seen' n' :
  scan_seller acc x = inr (all', seen', n') ->
  snd (fst acc) ⊆ seen' /\ covered seen' x.
Proof.
  destruct acc as [[all seen] n]. unfold scan_seller, covered. cbn [fst snd].
  destruct x as [| | | | | d]; try (intros [= <- <- <-]; split; [set_solver | discriminate]).
  destruct (truthy (resolve_id d)) eqn:Ht.
  - destruct (hash_key (resolve_id d)) as [k |] eqn:Hk; [| discriminate].
    destruct (bool_decide (k ∈ seen)) eqn:Hin; intros [= <- <- <-].
    + apply bool_decide_eq_true in Hin. split; [set_solver |].
      intros d' [= <-] _. eauto.
    + split; [set_solver |]. intros d' [= <-] _. exists k. split; [exact Hk | set_solver].
  - intros [= <- <- <-]. split; [set_solver |]. intros d' [= <-] Ht'. congruence.
Qed.

Lemma covered_mono seen seen' x : seen ⊆ seen' -> covered seen x -> covered seen' x.
Proof.
  intros Hsub Hc d Hd Ht. destruct (Hc d Hd Ht) as (k & Hk & Hin). exists k. split; [exact Hk | set_solver].
Qed.

(** A scan that returns has seen every identified entity of the page. *)
Lemma scan_sellers_covers (xs : list value) :
  forall all seen n all' seen' n',
    scan_sellers xs (all, seen, n) = inr (all', seen', n') ->
    seen ⊆ seen' /\ Forall (covered seen') xs.
Proof.
  induction xs as [| x xs IH]; intros all seen n all' seen' n' Hscan.
  - cbn in Hscan. injection Hscan as <- <- <-. split; [set_solver | constructor].
  - cbn [scan_sellers] in Hscan.
    destruct (scan_seller (all, seen, n) x) as [| [[all1 seen1] n1]] eqn:Hx; [discriminate |].
    apply scan_seller_covers in Hx as [Hsub1 Hcov1]. cbn [fst snd] in Hsub1.
    apply IH in Hscan as [Hsub2 Hcov2].
    split; [set_solver |]. constructor; [| exact Hcov2].
    eapply covered_mono; eassumption.
Qed.

(** Scanning entities that are all covered changes nothing. *)
Lemma scan_sellers_noop (xs : list value) all seen n :
  Forall (covered seen) xs -> scan_sellers xs (all, seen, n) = inr (all, seen, n).
Proof.
  induction 1 as [| x xs Hx _ IH]; [reflexivity |]. cbn [scan_sellers].
  assert (Hstep : scan_seller (all, seen, n) x = inr (all, seen, n)).
  { unfold scan_seller. destruct x as [| | | | | d]; try reflexivity.
    destruct (truthy (resolve_id d)) eqn:Ht; [| reflexivity].
    destruct (Hx d eq_refl Ht) as (k & -> & Hin).
    now rewrite bool_decide_eq_true_2. }
  rewrite Hstep. exact IH.
Qed.

(** What a round that goes on has met. *)
Lemma round_continue_data st r st' :
  round_result st r = Ret (Continue st') ->
  exists d total all seen n,
    reply_json r = Some (VDict d) /\
    declared_total st d = inr total /\
    page_scan st d = inr (all, seen, S n) /\
    total_open total (length all) /\
    st' = mkfs all seen total.
Proof.
  intros Hr. pose proof (round_result_cases st r) as Hc.
  destruct (reply_json r) as [[| | | | | d] |] eqn:Hj; try congruence.
  rewrite Hc in Hr. unfold page_result in Hr.
  destruct (declared_total st d) as [| total] eqn:Ht; [discriminate |].
  destruct (page_scan st d) as [| [[all seen] n]] eqn:Hs; [discriminate |].
  exists d, total, all, seen, (Nat.pred n).
  destruct (truthy total) eqn:Htr.
  - destruct (len_ge (length all) total) as [| [|]] eqn:Hl; try discriminate.
    cbn [orb] in Hr. destruct n; [discriminate |]. injection Hr as <-.
    split; [reflexivity |]. split; [exact Ht |]. split; [exact Hs |].
    split; [now right | reflexivity].
  - cbn [orb] in Hr. destruct n; [discriminate |]. injection Hr as <-.
    split; [reflexivity |]. split; [exact Ht |]. split; [exact Hs |].
    split; [now left | reflexivity].
Qed.

(** Once read, the declared total is what every later round finds. *)
Lemma declared_total_again st d total all seen :
  declared_total st d = inr total ->
  declared_total (mkfs all seen total) d = inr total.
Proof.
  unfold declared_total. cbn [total_sellers].
  destruct (total_sellers st) eqn:Hst; intros H;
    try (injection H as <-; reflexivity).
  destruct total; try reflexivity. exact H.
Qed.

(** The same page a second time stops the loop: nothing in it is new. *)
Lemma same_page_again st r st' :
  round_result st r = Ret (Continue st') ->
  round_result st' r = Ret (Break (all_sellers st')).
Proof.
  intros Hr. apply round_continue_data in Hr
    as (d & total & all & seen & n & Hj & Ht & Hs & Hopen & ->).
  pose proof (round_result_cases (mkfs all seen total) r) as Hc. rewrite Hj in Hc.
  rewrite Hc. unfold page_result. rewrite (declared_total_again _ _ _ all seen Ht).
  assert (Hs' : page_scan (mkfs all seen total) d = inr (all, seen, O)).
  { unfold page_scan in *. cbn [all_sellers seen_ids].
    destruct (truthy (get_default d "items" (VList []))); [| discriminate].
    destruct (py_iter _) as [| xs]; [discriminate |].
    apply scan_sellers_covers in Hs as [_ Hcov]. now apply scan_sellers_noop. }
  rewrite Hs'. cbn [all_sellers].
  destruct Hopen as [-> | Hl]; [reflexivity |].
  destruct (truthy total); [rewrite Hl |]; reflexivity.
Qed.

(** X3. The request of [get_all_sellers] carries no page number. If the
    catalogue answers the second request as it answered the first, the run
    ends with these two requests and returns what the first reply brought. *)
Theorem same_reply_twice_stops (w : world) (r : reply) (rest : list reply)
                               (st : fetch_state) :
  pending w = r :: r :: rest ->
  round_result (mkfs [] ∅ VNone) r = Ret (Continue st) ->
  get_all_sellers w
  = (Ret (all_sellers st),
     mkworld rest (sent w ++ [SellerList; SellerList]) (clock w) (reads w)).
Proof.
  intros Hp Hr. unfold get_all_sellers.
  rewrite (while_fetch_stops _ (mkfs [] ∅ VNone) [r] st r (all_sellers st) rest w).
  - reflexivity.
  - econstructor; [exact Hr | constructor].
  - exact (same_page_again _ _ _ Hr).
  - exact Hp.
  - rewrite Hp. cbn [length]. lia.
Qed.

Lemma same_reply_twice_stops_witness :
  get_all_sellers (FetchClaims.script [FetchClaims.page_one; FetchClaims.page_one;
                                       FetchClaims.page_two])
  = (Ret [FetchClaims.seller_a; FetchClaims.seller_b],
     mkworld [FetchClaims.page_two] [SellerList; SellerList]
             (fun _ => FetchClaims.noon_utc) O).
Proof.
  apply (same_reply_twice_stops
           (FetchClaims.script [FetchClaims.page_one; FetchClaims.page_one;
                                FetchClaims.page_two])
           FetchClaims.page_one [FetchClaims.page_two]
           (mkfs [FetchClaims.seller_a; FetchClaims.seller_b]
                 {[ KStr "a"; KNum 7 ]} (VInt 3))).
  - reflexivity.
  - vm_compute. reflexivity.
Defined.

(** *** Growth, and the bound the declared total puts on a run *)

Lemma round_grows st r st' :
  round_result st r = Ret (Continue st') ->
  exists added, all_sellers st' = all_sellers st ++ added /\ (1 <= length added)%nat.
Proof.
  intros Hr. apply round_continue_data in Hr
    as (d & total & all & seen & n & _ & _ & Hs & _ & ->).
  apply page_scan_adds in Hs as (added & ks & -> & Hn & _).
  exists added. cbn [all_sellers]. split; [reflexivity | lia].
Qed.

Lemma rounds_grow st rs st' :
  rounds st rs st' ->
  exists added, all_sellers st' = all_sellers st ++ added /\
                (length rs <= length added)%nat.
Proof.
  induction 1 as [st | st r st1 rs st2 Hr _ IH].
  - exists []. rewrite app_nil_r. split; [reflexivity | cbn; lia].
  - destruct (round_grows _ _ _ Hr) as (a1 & H1 & Hl1).
    destruct IH as (a2 & H2 & Hl2). exists (a1 ++ a2).
    rewrite H2, H1, <- app_assoc, length_app. split; [reflexivity | cbn [length]; lia].
Qed.

(** A positive total, once declared, stays the total, and the loop goes on
    only while the accumulated count is below it. *)
Lemma round_below_total st r st' (N : Z) :
  round_result st r = Ret (Continue st') ->
  total_sellers st = VInt N -> N <> 0 ->
  total_sellers st' = VInt N /\ Z.of_nat (length (all_sellers st')) < N.
Proof.
  intros Hr Hst HN. apply round_continue_data in Hr
    as (d & total & all & seen & n & _ & Ht & _ & Hopen & ->).
  unfold declared_total in Ht. rewrite Hst in Ht. injection Ht as <-.
  cbn [total_sellers all_sellers]. split; [reflexivity |].
  destruct Hopen as [Hf | Hl].
  - cbn in Hf. apply negb_false_iff, Z.eqb_eq in Hf. contradiction.
  - cbn in Hl. injection Hl as Hl. apply Z.leb_gt in Hl. exact Hl.
Qed.

Lemma rounds_below_total st rs st' (N : Z) :
  rounds st rs st' ->
  total_sellers st = VInt N -> N <> 0 ->
  Z.of_nat (length (all_sellers st)) < N ->
  total_sellers st' = VInt N /\ Z.of_nat (length (all_sellers st')) < N.
Proof.
  induction 1 as [st | st r st1 rs st2 Hr _ IH]; intros Hst HN Hlt; [auto |].
  destruct (round_below_total _ _ _ N Hr Hst HN) as [Hst1 Hlt1]. now apply IH.
Qed.

(** X2. When the first page declares a total [N] other than 0, a
    returning run of [get_all_sellers] sends at most [max 1 N] requests:
    every round that goes on has added a seller and found the count still
    below [N]. *)
Theorem declared_total_bounds_requests (w : world) (res : list value) (w' : world)
        (r0 : reply) (rest0 : list reply) (d0 : list (string * value)) (N : Z) :
  get_all_sellers w = (Ret res, w') ->
  pending w = r0 :: rest0 ->
  reply_json r0 = Some (VDict d0) ->
  declared_total (mkfs [] ∅ VNone) d0 = inr (VInt N) ->
  N <> 0 ->
  exists n : nat,
    sent w' = sent w ++ repeat SellerList n /\ Z.of_nat n <= Z.max 1 N.
Proof.
  intros Hrun Hp Hj Ht HN. unfold get_all_sellers in Hrun.
  apply while_fetch_returns in Hrun as (rs & r & st & Hp' & Hrs & _ & Hs & _).
  exists (S (length rs)). split; [exact Hs |].
  destruct rs as [| r1 rs]; [cbn; lia |].
  inversion Hrs as [| ? ? st1 ? ? Hr1 Hrs1]; subst. clear Hrs. rename Hrs1 into Hrs.
  rewrite Hp in Hp'. cbn [app] in Hp'. injection Hp' as <- _.
  pose proof (round_continue_data _ _ _ Hr1)
    as (d & total & all & seen & n & Hj' & Ht' & _ & Hopen & Hst1).
  rewrite Hj in Hj'. injection Hj' as <-. rewrite Ht in Ht'. injection Ht' as <-.
  assert (Hlt1 : Z.of_nat (length (all_sellers st1)) < N).
  { subst st1. cbn [all_sellers]. destruct Hopen as [Hf | Hl].
    - cbn in Hf. apply negb_false_iff, Z.eqb_eq in Hf. contradiction.
    - cbn in Hl. injection Hl as Hl. now apply Z.leb_gt in Hl. }
  assert (Htot1 : total_sellers st1 = VInt N) by (subst st1; reflexivity).
  destruct (rounds_below_total _ _ _ N Hrs Htot1 HN Hlt1) as [_ Hlt2].
  destruct (round_grows _ _ _ Hr1) as (a1 & Ha1 & Hl1).
  destruct (rounds_grow _ _ _ Hrs) as (a2 & Ha2 & Hl2).
  rewrite Ha2, Ha1 in Hlt2. cbn [all_sellers app] in Hlt2.
  rewrite length_app in Hlt2. cbn [length]. cbn [length] in Hlt2. lia.
Qed.

Lemma declared_total_bounds_requests_witness :
  exists n : nat,
    [SellerList; SellerList] = [] ++ repeat SellerList n /\ Z.of_nat n <= Z.max 1 3.
Proof.
  apply (declared_total_bounds_requests
           (FetchClaims.script [FetchClaims.page_one; FetchClaims.page_two; ConnError])
           [FetchClaims.seller_a; FetchClaims.seller_b; FetchClaims.seller_c]
           (mkworld [ConnError] [SellerList; SellerList] (fun _ => FetchClaims.noon_utc) O)
           FetchClaims.page_one [FetchClaims.page_two; ConnError]
           [("items", VList [FetchClaims.seller_a; FetchClaims.seller_b;
                             FetchClaims.seller_a; FetchClaims.anonymous]);
            ("paging", VDict [("total", VInt 3)])] 3).
  - vm_compute. reflexivity.
  - reflexivity.
  - reflexivity.
  - reflexivity.
  - lia.
Defined.

(** X1. Partial results are kept: when the rounds so far went on and the
    next request fails, the run returns what those rounds accumulated, at
    least one seller for each of them, and sends nothing more. *)
Theorem failed_request_keeps_accumulated (w : world) (rs : list reply) (r : reply)
        (rest : list reply) (st : fetch_state) :
  pending w = rs ++ r :: rest ->
  rounds (mkfs [] ∅ VNone) rs st ->
  request_fails r = true ->
  get_all_sellers w
  = (Ret (all_sellers st),
     mkworld rest (sent w ++ repeat SellerList (S (length rs))) (clock w) (reads w)) /\
  (length rs <= length (all_sellers st))%nat.
Proof.
  intros Hp Hrs Hf. split.
  - unfold get_all_sellers.
    apply (while_fetch_stops _ _ rs st r (all_sellers st) rest w Hrs); [| exact Hp |].
    + pose proof (round_result_cases st r) as Hc.
      now rewrite (proj2 (reply_json_None r) Hf) in Hc.
    + rewrite Hp, length_app. cbn [length]. lia.
  - destruct (rounds_grow _ _ _ Hrs) as (added & -> & Hl). exact Hl.
Qed.

Lemma failed_request_keeps_accumulated_witness :
  get_all_sellers (FetchClaims.script [FetchClaims.page_one; Resp (mkresp 502 None);
                                       FetchClaims.page_two])
  = (Ret [FetchClaims.seller_a; FetchClaims.seller_b],
     mkworld [FetchClaims.page_two] ([] ++ repeat SellerList 2)
             (fun _ => FetchClaims.noon_utc) O) /\
  (1 <= 2)%nat.
Proof.
  apply (failed_request_keeps_accumulated
           (FetchClaims.script [FetchClaims.page_one; Resp (mkresp 502 None);
                                FetchClaims.page_two])
           [FetchClaims.page_one] (Resp (mkresp 502 None)) [FetchClaims.page_two]
           (mkfs [FetchClaims.seller_a; FetchClaims.seller_b]
                 {[ KStr "a"; KNum 7 ]} (VInt 3))).
  - reflexivity.
  - econstructor; [| constructor]. vm_compute. reflexivity.
  - reflexivity.
Defined.

(** *** No seller is lost *)

Lemma page_scan_covers st d all seen n :
  page_scan st d = inr (all, seen, n) ->
  seen_ids st ⊆ seen /\
  forall xs, dict_get d "items" = Some (VList xs) -> Forall (covered seen) xs.
Proof.
  unfold page_scan, get_default.
  destruct (dict_get d "items") as [items |] eqn:Hitems.
  - destruct (truthy items) eqn:Htr.
    + destruct (py_iter items) as [| ys] eqn:Hit; [discriminate |]. intros Hscan.
      apply scan_sellers_covers in Hscan as [Hsub Hcov]. split; [exact Hsub |].
      intros xs [= ->]. cbn in Hit. now injection Hit as <-.
    + intros [= <- <- <-]. split; [set_solver |].
      intros xs [= ->]. destruct xs; [constructor | discriminate].
  - cbn [truthy]. intros [= <- <- <-]. split; [set_solver | intros xs [=]].
Qed.

Lemma deduplicated_member st k :
  deduplicated st -> k ∈ seen_ids st ->
  exists e, In e (all_sellers st) /\ identified e k.
Proof.
  intros (ks & Hid & _ & ->) Hk. apply elem_of_list_to_set in Hk.
  induction Hid as [| e k' all ks He _ IH]; [now apply elem_of_nil in Hk |].
  apply elem_of_cons in Hk as [-> | Hk].
  - exists e. split; [now left | exact He].
  - destruct (IH Hk) as (e' & Hin & He'). exists e'. split; [now right | exact He'].
Qed.

Lemma covered_identified seen e k : covered seen e -> identified e k -> k ∈ seen.
Proof.
  intros Hc (d & -> & Ht & Hk). destruct (Hc d eq_refl Ht) as (k' & Hk' & Hin).
  congruence.
Qed.

(** A round on a JSON object, or on a failed request, leaves a state that
    covers what the reply delivered and still covers what was seen. *)
Lemma round_covers st r c :
  round_result st r = Ret c ->
  (forall v, reply_json r = Some v -> is_dict v = true) ->
  deduplicated st ->
  exists st',
    (c = Continue st' \/ c = Break (all_sellers st')) /\
    deduplicated st' /\ seen_ids st ⊆ seen_ids st' /\
    forall e, delivers r e -> covered (seen_ids st') e.
Proof.
  intros Hr Hobj Hinv. pose proof (round_result_cases st r) as Hc.
  destruct (reply_json r) as [v |] eqn:Hj.
  - specialize (Hobj v eq_refl). destruct v as [| | | | | d]; try discriminate.
    rewrite Hc in Hr. unfold page_result in Hr.
    destruct (declared_total st d) as [| total]; [discriminate |].
    destruct (page_scan st d) as [| [[all seen] n]] eqn:Hs; [discriminate |].
    pose proof (page_scan_covers _ _ _ _ _ Hs) as [Hsub Hcov].
    pose proof (page_scan_adds _ _ _ _ _ Hs)
      as (added & ks & Hall & _ & Hid & Hnd & Hnew & Hseen & _).
    exists (mkfs all seen total). cbn [all_sellers seen_ids]. split.
    { destruct (if truthy total then _ else _) as [| reached]; [discriminate |].
      destruct (reached || Nat.eqb n 0); injection Hr as <-; auto. }
    split; [eapply deduplicated_app; eassumption |]. split; [exact Hsub |].
    intros e (d' & xs & Hj' & Hxs & He). rewrite Hj in Hj'. injection Hj' as <-.
    specialize (Hcov xs Hxs). rewrite List.Forall_forall in Hcov. now apply Hcov.
  - rewrite Hc in Hr. injection Hr as <-. exists st. split; [now right |].
    split; [exact Hinv |]. split; [set_solver |].
    intros e (d' & xs & Hj' & _). rewrite Hj in Hj'. discriminate.
Qed.

Lemma rounds_cover st rs st' :
  rounds st rs st' -> deduplicated st ->
  deduplicated st' /\ seen_ids st ⊆ seen_ids st' /\
  forall e, delivered_by rs e -> covered (seen_ids st') e.
Proof.
  induction 1 as [st | st r st1 rs st2 Hr _ IH]; intros Hinv.
  - split; [exact Hinv |]. split; [set_solver |]. intros e He. inversion He.
  - assert (Hobj : forall v, reply_json r = Some v -> is_dict v = true).
    { intros v Hv. apply round_continue_data in Hr as (d & ? & ? & ? & ? & Hj & _).
      rewrite Hj in Hv. now injection Hv as <-. }
    destruct (round_covers _ _ _ Hr Hobj Hinv)
      as (st1' & [[= <-] | [=]] & Hinv1 & Hsub1 & Hcov1).
    destruct (IH Hinv1) as (Hinv2 & Hsub2 & Hcov2).
    split; [exact Hinv2 |]. split; [set_solver |].
    intros e He. apply Exists_cons in He as [He | He].
    + eapply covered_mono; [exact Hsub2 | now apply Hcov1].
    + now apply Hcov2.
Qed.

(** X4. No seller is lost: when every document a returning run read was a
    JSON object, each identified entity that a page delivered is
    represented in the result by an entity with the same identifier key. *)
Theorem delivered_sellers_are_kept (w : world) (res : list value) (w' : world)
        (consumed : list reply) (e : value) (k : key) :
  get_all_sellers w = (Ret res, w') ->
  pending w = consumed ++ pending w' ->
  Forall (fun r => forall v, reply_json r = Some v -> is_dict v = true) consumed ->
  delivered_by consumed e -> identified e k ->
  exists e', In e' res /\ identified e' k.
Proof.
  unfold get_all_sellers. intros Hrun Hcons Hobj Hdel Hid.
  apply while_fetch_returns in Hrun as (rs & r & st & Hp & Hrs & Hbr & _).
  assert (consumed = rs ++ [r]) as ->.
  { apply (app_inv_tail (pending w')). rewrite <- Hcons, Hp, <- app_assoc. reflexivity. }
  apply Forall_app in Hobj as [_ Hr]. inversion Hr as [| ? ? Hr' _]; subst.
  destruct (rounds_cover _ _ _ Hrs deduplicated_init) as (Hinv & _ & Hcov).
  destruct (round_covers _ _ _ Hbr Hr' Hinv)
    as (st' & [[=] | [= ->]] & Hinv' & Hsub & Hcov').
  apply (deduplicated_member _ _ Hinv').
  apply Exists_app in Hdel as [Hdel | Hdel].
  - eapply covered_identified; [| exact Hid].
    eapply covered_mono; [exact Hsub | now apply Hcov].
  - apply Exists_cons in Hdel as [Hdel | Hdel]; [| inversion Hdel].
    eapply covered_identified; [| exact Hid]. now apply Hcov'.
Qed.

Lemma delivered_sellers_are_kept_witness :
  exists e', In e' [FetchClaims.seller_a; FetchClaims.seller_b; FetchClaims.seller_c] /\
             identified e' (KNum 7).
Proof.
  apply (delivered_sellers_are_kept
           (FetchClaims.script [FetchClaims.page_one; FetchClaims.page_two; ConnError]) _
           (mkworld [ConnError] [SellerList; SellerList] (fun _ => FetchClaims.noon_utc) O)
           [FetchClaims.page_one; FetchClaims.page_two] FetchClaims.seller_b (KNum 7)).
  - vm_compute. reflexivity.
  - reflexivity.
  - repeat constructor; intros v [= <-]; reflexivity.
  - apply Exists_cons_tl, Exists_cons_hd.
    eexists _, _. split; [reflexivity |]. split; [reflexivity |]. now left.
  - eexists. split; [reflexivity |]. split; reflexivity.
Defined.

(** *** The exceptions that escape *)

Lemma round_result_raises st r e :
  round_result st r = Raise e -> e = AttributeError \/ e = TypeError.
Proof.
  intros Hr. pose proof (round_result_cases st r) as Hc.
  destruct (reply_json r) as [[| | | | | d] |]; try congruence.
  rewrite Hc in Hr. unfold page_result in Hr.
  destruct (declared_total st d) as [e1 | total] eqn:Ht.
  { injection Hr as <-. left. eapply declared_total_exn, Ht. }
  destruct (page_scan st d) as [e2 | [[all seen] n]] eqn:Hs.
  { injection Hr as <-. right. eapply page_scan_exn, Hs. }
  destruct (truthy total).
  - destruct (len_ge (length all) total) as [e3 | reached] eqn:Hl.
    + injection Hr as <-. right. eapply len_ge_exn, Hl.
    + destruct (reached || Nat.eqb n 0); discriminate.
  - destruct (false || Nat.eqb n 0); discriminate.
Qed.

(** X5. No [RequestException] escapes [get_all_sellers]: the only
    exceptions a run can end on are an [AttributeError] (a ['paging'] that
    is no object) and a [TypeError] (items that cannot be iterated, an
    identifier that cannot be hashed, a total that cannot be compared). *)
Theorem get_all_sellers_escaping_exceptions (w : world) (e : exn) :
  fst (get_all_sellers w) = Raise e -> e = AttributeError \/ e = TypeError.
Proof.
  unfold get_all_sellers. generalize (S (length (pending w))) as fuel.
  generalize (mkfs [] ∅ VNone) as st. intros st fuel. revert st w.
  induction fuel as [| fuel IH]; intros st w; [discriminate |].
  cbn [while_true]. unfold bind.
  destruct (pending w) as [| r rest] eqn:Hp.
  - rewrite (fetch_page_starved st w Hp). discriminate.
  - rewrite (fetch_page_reply st w r rest Hp).
    destruct (round_result st r) as [[st1 | res1] | e1 | |] eqn:Hr; try discriminate.
    + apply IH.
    + intros [= <-]. eapply round_result_raises, Hr.
Qed.

Lemma get_all_sellers_escaping_exceptions_witness :
  TypeError = AttributeError \/ TypeError = TypeError.
Proof.
  apply (get_all_sellers_escaping_exceptions
           (FetchClaims.script
              [FetchClaims.ok (VDict [("items", VList [VDict [("id", VList [VInt 1])]])])])).
  vm_compute. reflexivity.
Defined.

End SellersMore.

(** ** More on [export_to_csv]: the shape of the file, and what reaches it *)
Module ExportMore.
Import Py Sellers RowFacts.
Local Open Scope list_scope.

Lemma extend_fieldnames_spec (keys : list string) :
  forall names,
    exists extra,
      extend_fieldnames names keys = names ++ extra /\
      (NoDup names -> NoDup (names ++ extra)) /\
      (forall k, k ∈ keys -> k ∈ names ++ extra).
Proof.
  induction keys as [| k keys IH]; intros names; cbn [extend_fieldnames fold_left].
  - exists []. rewrite app_nil_r. split; [reflexivity |]. split; [auto |].
    intros k Hk. now apply elem_of_nil in Hk.
  - destruct (bool_decide (k ∈ names)) eqn:Hin.
    + apply bool_decide_eq_true in Hin.
      destruct (IH names) as (extra & Heq & Hnd & Hall).
      exists extra. split; [exact Heq |]. split; [exact Hnd |].
      intros k' Hk'. apply elem_of_cons in Hk' as [-> | Hk']; [| now apply Hall].
      apply elem_of_app. now left.
    + apply bool_decide_eq_false in Hin.
      destruct (IH (names ++ [k])) as (extra & Heq & Hnd & Hall).
      exists (k :: extra). change (fold_left _ keys (names ++ [k]))
        with (extend_fieldnames (names ++ [k]) keys).
      rewrite Heq, <- app_assoc. split; [reflexivity |]. split.
      * intros Hnames. change (names ++ k :: extra) with (names ++ [k] ++ extra).
        rewrite app_assoc. apply Hnd. apply NoDup_app. split; [exact Hnames |].
        split; [| apply NoDup_singleton].
        intros x Hx Hx'. apply list_elem_of_singleton in Hx'. subst x. contradiction.
      * intros k' Hk'. change (names ++ k :: extra) with (names ++ [k] ++ extra).
        rewrite app_assoc. apply elem_of_cons in Hk' as [-> | Hk']; [| now apply Hall].
        apply elem_of_app. left. apply elem_of_app. right. now left.
Qed.

Lemma all_keys_fold (sellers : list value) :
  forall (keys : gset string) k,
    k ∈ fold_left
          (fun keys seller =>
             match seller with
             | VDict d => keys ∪ list_to_set (map fst d)
             | _ => keys
             end) sellers keys
    <-> k ∈ keys \/ exists d, In (VDict d) sellers /\ In k (map fst d).
Proof.
  induction sellers as [| s sellers IH]; intros keys k; cbn [fold_left].
  - split; [auto |]. intros [H | (d & [] & _)]. exact H.
  - rewrite IH. split.
    + intros [Hk | (d & Hd & Hin)].
      * destruct s as [| | | | | d]; auto.
        apply elem_of_union in Hk as [Hk | Hk]; [auto |].
        right. exists d. split; [now left |].
        apply elem_of_list_to_set in Hk. now apply list_elem_of_In.
      * right. exists d. split; [now right | exact Hin].
    + intros [Hk | (d & [-> | Hd] & Hin)].
      * left. destruct s; try exact Hk. set_solver.
      * left. apply elem_of_union. right.
        apply elem_of_list_to_set. now apply list_elem_of_In.
      * right. eauto.
Qed.

Lemma all_keys_spec (sellers : list value) (k : string) :
  k ∈ all_keys sellers <-> exists d, In (VDict d) sellers /\ In k (map fst d).
Proof.
  unfold all_keys. rewrite all_keys_fold. split; [| auto].
  intros [H | H]; [set_solver | exact H].
Qed.

(** A renamed key lands in one of the standard columns; any other key keeps
    its name. *)
Lemma target_key_cases (k : string) :
  (In k (map fst field_mapping) /\ In (target_key k) fieldnames) \/
  (~ In k (map fst field_mapping) /\ target_key k = k).
Proof.
  unfold target_key, field_mapping, mapping_get.
  repeat match goal with
         | |- context [String.eqb ?a k] =>
             destruct (String.eqb_spec a k) as [<- | ?]
         end;
    try (left; split; [cbn; tauto | cbn; tauto]).
  right. split; [| reflexivity]. cbn. intuition congruence.
Qed.

(** No key is sent to the name of a renamed key. *)
Lemma target_key_never_source (k0 k : string) :
  In k (map fst field_mapping) -> target_key k0 <> k.
Proof.
  intros Hk Heq. destruct (target_key_cases k0) as [[_ Hin] | [Hno Hsame]].
  - assert (Hdisj : Forall (fun k => k ∉ fieldnames) (map fst field_mapping))
      by (apply (bool_decide_unpack _); vm_compute; exact I).
    rewrite List.Forall_forall in Hdisj. apply (Hdisj k Hk).
    apply list_elem_of_In. now rewrite <- Heq.
  - rewrite Hsame in Heq. subst k0. contradiction.
Qed.

Lemma writerow_lookup (names : list string) (row : gmap string value) (i : nat) (c : string) :
  names !! i = Some c ->
  writerow names row !! i = Some (default (VStr "") (row !! c)).
Proof.
  unfold writerow. revert i. induction names as [| c' names IH]; intros [| i] H;
    try discriminate.
  - injection H as ->. reflexivity.
  - cbn. now apply IH.
Qed.

Lemma NoDup_fieldnames : NoDup fieldnames.
Proof. apply (bool_decide_unpack _). vm_compute. exact I. Qed.

Definition dict_count (sellers : list value) : nat :=
  length (filter (fun s => is_dict s = true) sellers).

Lemma lines_of_dicts (names : list string) (sellers : list value) :
  let lines := omap (fun seller =>
                       match seller with
                       | VDict d => Some (writerow names (make_row d))
                       | _ => None
                       end) sellers in
  length lines = dict_count sellers /\
  Forall (fun line => length line = length names) lines.
Proof.
  unfold dict_count. induction sellers as [| s sellers [IHl IHf]]; [split; constructor |].
  destruct s; cbn; try (split; assumption).
  split; [now rewrite IHl |]. constructor; [| exact IHf].
  unfold writerow. apply length_map.
Qed.



Lemma export_to_csv_Some (set_iter : gset string -> list string)
      (sellers : list value) (filename : option string) (name : string) (file : csv_file) :
  export_to_csv set_iter sellers filename = Some (name, file) ->
  header file = extend_fieldnames fieldnames (set_iter (all_keys sellers)) /\
  lines file = omap (fun seller =>
                       match seller with
                       | VDict d => Some (writerow (header file) (make_row d))
                       | _ => None
                       end) sellers.
Proof.
  unfold export_to_csv. destruct sellers as [| s sellers]; [discriminate |].
  intros [= _ <-]. split; reflexivity.
Qed.

Section Enumerating.

Variable set_iter : gset string -> list string.

(** Iterating a set meets each of its elements. *)
Hypothesis set_iter_all : forall (X : gset string) (k : string), k ∈ X -> k ∈ set_iter X.

Lemma header_has_target (sellers : list value) (d : list (string * value))
                        (k : string) (v : value) :
  In (VDict d) sellers -> In (k, v) d ->
  target_key k ∈ extend_fieldnames fieldnames (set_iter (all_keys sellers)).
Proof.
  intros Hd Hkv.
  destruct (extend_fieldnames_spec (set_iter (all_keys sellers)) fieldnames)
    as (extra & -> & _ & Hall).
  destruct (target_key_cases k) as [[_ Hin] | [_ ->]].
  - apply elem_of_app. left. now apply list_elem_of_In.
  - apply Hall, set_iter_all, all_keys_spec. exists d. split; [exact Hd |].
    apply in_map_iff. exists (k, v). auto.
Qed.


(** X8. A renamed key leaves an empty column behind: the header gets a
    column for each key of the entities, also for a key the mapping
    renames, but every row stores that key's value under the new name, so
    the column of the old name is empty on every line. *)
Theorem renamed_key_column_empty (sellers : list value) (filename : option string)
        (name : string) (file : csv_file) (d : list (string * value))
        (k : string) (v : value) :
  export_to_csv set_iter sellers filename = Some (name, file) ->
  In (VDict d) sellers -> In (k, v) d ->
  In k (map fst field_mapping) ->
  exists i,
    header file !! i = Some k /\
    Forall (fun line => line !! i = Some (VStr "")) (lines file).
Proof.
  intros Hexp Hd Hkv Hsrc. apply export_to_csv_Some in Hexp as [Hhead Hlines].
  rewrite Hlines. set (names := header file) in *.
  assert (Hcol : k ∈ names).
  { rewrite Hhead.
    destruct (extend_fieldnames_spec (set_iter (all_keys sellers)) fieldnames)
      as (extra & -> & _ & Hall).
    apply Hall, set_iter_all, all_keys_spec. exists d. split; [exact Hd |].
    apply in_map_iff. exists (k, v). auto. }
  apply list_elem_of_lookup in Hcol as [i Hi]. exists i. split; [exact Hi |].
  apply Forall_forall. intros line Hline.
  apply list_elem_of_omap in Hline as (s' & _ & Hs').
  destruct s' as [| | | | | d']; try discriminate. injection Hs' as <-.
  rewrite (writerow_lookup _ _ _ _ Hi), backfill_never_fires.
  destruct (fill_row_empty_or_field k d')
    as [[_ ->] | (? & k0 & ? & ? & _ & Hk0 & _)]; [reflexivity |].
  exfalso. exact (target_key_never_source k0 k Hsrc Hk0).
Qed.

End Enumerating.

Lemma elements_all (X : gset string) (k : string) : k ∈ X -> k ∈ elements X.
Proof. apply elem_of_elements. Qed.

Definition catalogue_export : option (string * csv_file) :=
  export_to_csv elements [FetchClaims.seller_b] None.


Lemma renamed_key_column_empty_witness :
  exists i,
    header (snd (default ("", mkcsv [] []) catalogue_export)) !! i = Some "SellerId" /\
    Forall (fun line => line !! i = Some (VStr ""))
           (lines (snd (default ("", mkcsv [] []) catalogue_export))).
Proof.
  apply (renamed_key_column_empty elements elements_all [FetchClaims.seller_b] None
           (fst (default ("", mkcsv [] []) catalogue_export))
           (snd (default ("", mkcsv [] []) catalogue_export))
           [("SellerId", VInt 7); ("Name", VStr "b")] "SellerId" (VInt 7)).
  - reflexivity.
  - now left.
  - now left.
  - now left.
Defined.

End ExportMore.

(** ** More on [export_sellers]: the detail phase *)
Module DetailsMore.
Import Py Run RunFacts Sellers SellersFacts.
Local Open Scope list_scope.

Definition is_details (q : request) : Prop := exists seller_id, q = SellerDetails seller_id.

Lemma get_seller_details_cases seller_id w :
  (pending w = [] /\
   get_seller_details seller_id w = (Starved, advance (SellerDetails seller_id) w)) \/
  (exists details, get_seller_details seller_id w
                   = (Ret details, advance (SellerDetails seller_id) w)).
Proof.
  unfold get_seller_details, try_except_request, bind, requests_get, advance,
    raise_for_status, json.
  destruct (pending w) as [| [| [sc b]] rest]; [left; auto | right; eauto |].
  right. cbn [status_code body].
  destruct (Z.leb 400 sc && Z.ltb sc 600); [eauto |].
  destruct b; eauto.
Qed.

(** What one seller adds to [detailed_sellers]: one entry, the seller
    itself or a non-empty detail document, for at most one request. *)
Lemma add_details_returns detailed seller w detailed' w' :
  add_details detailed seller w = (Ret detailed', w') ->
  exists entry log,
    detailed' = detailed ++ [entry] /\
    (entry = seller \/ truthy entry = true) /\
    sent w' = sent w ++ log /\ (length log <= 1)%nat /\ Forall is_details log.
Proof.
  unfold add_details, bind, lift, py_get.
  destruct seller as [| | | | | d]; try discriminate. unfold ret at 1.
  set (id1 := get_default d "id" VNone).
  assert (Hnone : forall entry, entry = VDict d ->
            exists entry' log,
              detailed ++ [entry] = detailed ++ [entry'] /\
              (entry' = VDict d \/ truthy entry' = true) /\
              sent w = sent w ++ log /\ (length log <= 1)%nat /\ Forall is_details log).
  { intros entry ->. exists (VDict d), []. rewrite app_nil_r.
    split; [reflexivity |]. split; [now left |]. split; [reflexivity |].
    split; [cbn; lia | constructor]. }
  assert (Hgo : forall seller_id,
            (let (o, w1) := get_seller_details seller_id w in
             match o with
             | Ret details =>
                 (if truthy details then ret (detailed ++ [details])
                  else ret (detailed ++ [VDict d])) w1
             | Raise e => (Raise e, w1)
             | Starved => (Starved, w1)
             | OutOfFuel => (OutOfFuel, w1)
             end) = (Ret detailed', w') ->
            exists entry log,
              detailed' = detailed ++ [entry] /\
              (entry = VDict d \/ truthy entry = true) /\
              sent w' = sent w ++ log /\ (length log <= 1)%nat /\ Forall is_details log).
  { intros seller_id.
    destruct (get_seller_details_cases seller_id w) as [[_ ->] | [details ->]];
      [discriminate |].
    destruct (truthy details) eqn:Ht; intros [= <- <-].
    - exists details, [SellerDetails seller_id].
      split; [reflexivity |]. split; [now right |]. split; [reflexivity |].
      split; [cbn; lia |]. constructor; [now exists seller_id | constructor].
    - exists (VDict d), [SellerDetails seller_id].
      split; [reflexivity |]. split; [now left |]. split; [reflexivity |].
      split; [cbn; lia |]. constructor; [now exists seller_id | constructor]. }
  destruct (truthy id1) eqn:Hid1.
  - unfold ret at 1. rewrite Hid1. apply Hgo.
  - unfold ret at 1. destruct (truthy (get_default d "sellerId" VNone)).
    + apply Hgo.
    + intros [= <- <-]. now apply Hnone.
Qed.

(** X9. The detail phase of [export_sellers] keeps every seller: the list
    it builds has one entry per seller, in order, each either the summary
    entity itself or a non-empty detail document, and it sends at most one
    request per seller, all of them detail requests. *)
Theorem detail_phase_keeps_every_seller (sellers : list value) :
  forall (detailed : list value) (w : world) (detailed' : list value) (w' : world),
    for_each sellers add_details detailed w = (Ret detailed', w') ->
    exists added log,
      detailed' = detailed ++ added /\
      Forall2 (fun seller entry => entry = seller \/ truthy entry = true) sellers added /\
      sent w' = sent w ++ log /\
      (length log <= length sellers)%nat /\ Forall is_details log.
Proof.
  induction sellers as [| s sellers IH]; intros detailed w detailed' w'; cbn [for_each].
  - intros [= <- <-]. exists [], []. rewrite !app_nil_r.
    split; [reflexivity |]. split; [constructor |]. split; [reflexivity |].
    split; [cbn; lia | constructor].
  - unfold bind.
    destruct (add_details detailed s w) as [[detailed1 | | |] w1] eqn:Hs; try discriminate.
    intros Hrest.
    apply add_details_returns in Hs as (entry & log1 & -> & Hentry & Hs1 & Hl1 & Hq1).
    apply IH in Hrest as (added & log2 & -> & Hall & Hs2 & Hl2 & Hq2).
    exists (entry :: added), (log1 ++ log2). rewrite <- app_assoc.
    split; [reflexivity |]. split; [now constructor |].
    split; [rewrite Hs2, Hs1; now rewrite app_assoc |].
    split; [rewrite length_app; cbn [length]; lia | now apply Forall_app].
Qed.

Lemma detail_phase_keeps_every_seller_witness :
  exists added log,
    [FetchClaims.seller_c; FetchClaims.seller_b] = [] ++ added /\
    Forall2 (fun seller entry => entry = seller \/ truthy entry = true)
            [FetchClaims.seller_a; FetchClaims.seller_b] added /\
    [SellerDetails (VStr "a")] = [] ++ log /\
    (length log <= 2)%nat /\ Forall is_details log.
Proof.
  apply (detail_phase_keeps_every_seller
           [FetchClaims.seller_a; FetchClaims.seller_b] []
           (FetchClaims.script [FetchClaims.ok FetchClaims.seller_c]) _
           (mkworld [] [SellerDetails (VStr "a")] (fun _ => FetchClaims.noon_utc) O)).
  vm_compute. reflexivity.
Defined.

(** X10. The detail phase raises only on a seller that is no dict (as a
    bare list of strings gives), and then an [AttributeError]: a failing
    detail request never ends the export. *)
Theorem detail_phase_raises_only_on_non_dict (sellers : list value) :
  forall (detailed : list value) (w : world) (e : exn),
    fst (for_each sellers add_details detailed w) = Raise e ->
    e = AttributeError /\ Exists (fun seller => is_dict seller = false) sellers.
Proof.
  induction sellers as [| s sellers IH]; intros detailed w e; cbn [for_each];
    [discriminate |].
  unfold bind.
  destruct (add_details detailed s w) as [[detailed1 | e1 | |] w1] eqn:Hs;
    cbn [fst]; try discriminate.
  - intros Hrest. destruct (IH _ _ _ Hrest) as [-> Hex]. split; [reflexivity |].
    now apply Exists_cons_tl.
  - intros [= <-]. revert Hs. unfold add_details, bind, lift, py_get.
    destruct s as [| | | | | d];
      try (intros [= <- _]; split; [reflexivity | now apply Exists_cons_hd]).
    unfold ret at 1. intros Hs. exfalso.
    assert (Hgo : forall seller_id (k : value -> M (list value)),
              (forall v w2 e2, fst (k v w2) <> Raise e2) ->
              forall e2, fst ((let (o, w2) := get_seller_details seller_id w in
                               match o with
                               | Ret a => k a w2
                               | Raise e => (Raise e, w2)
                               | Starved => (Starved, w2)
                               | OutOfFuel => (OutOfFuel, w2)
                               end)) <> Raise e2).
    { intros seller_id k Hk e2.
      destruct (get_seller_details_cases seller_id w) as [[_ ->] | [details ->]];
        [discriminate | apply Hk]. }
    assert (Hk : forall v w2 e2,
              fst ((if truthy v then ret (detailed ++ [v])
                    else ret (detailed ++ [VDict d])) w2) <> Raise e2).
    { intros v w2 e2. destruct (truthy v); discriminate. }
    destruct (truthy (get_default d "id" VNone)) eqn:Hid1.
    + unfold ret at 1 in Hs. rewrite Hid1 in Hs.
      apply (Hgo (get_default d "id" VNone)
               (fun a => if truthy a then ret (detailed ++ [a])
                         else ret (detailed ++ [VDict d])) Hk e1).
      now rewrite Hs.
    + unfold ret at 1 in Hs. destruct (truthy (get_default d "sellerId" VNone)).
      * apply (Hgo (get_default d "sellerId" VNone)
                 (fun a => if truthy a then ret (detailed ++ [a])
                           else ret (detailed ++ [VDict d])) Hk e1).
        now rewrite Hs.
      * discriminate.
Qed.

Lemma detail_phase_raises_only_on_non_dict_witness :
  AttributeError = AttributeError /\
  Exists (fun seller => is_dict seller = false) [FetchClaims.seller_b; VStr "x"].
Proof.
  apply (detail_phase_raises_only_on_non_dict [FetchClaims.seller_b; VStr "x"] []
           (FetchClaims.script [])).
  reflexivity.
Defined.

End DetailsMore.

(** ** More on [coletar_itens]: attempts, records, pages *)
Module PedidosMore.
Import Py DateTime Run RunFacts PedidosItens PedidosFacts.
Local Open Scope list_scope.

(** One attempt at an order: the world moves by one request, and the loop
    either is left waiting, or has its document, or tries again. *)
Lemma fetch_pedido_attempt order_id n w :
  fetch_pedido order_id (S n) w = (Starved, advance (OrderDetails order_id) w) \/
  (exists pedido,
     fetch_pedido order_id (S n) w = (Ret pedido, advance (OrderDetails order_id) w)) \/
  fetch_pedido order_id (S n) w
  = fetch_pedido order_id n (advance (OrderDetails order_id) w).
Proof.
  cbn [fetch_pedido]. unfold bind at 1.
  unfold try_except_request, bind, requests_get, advance.
  destruct (pending w) as [| [| [sc b]] rest]; [now left | now right; right |].
  cbn [status_code]. destruct (Z.eqb sc 200); [| now right; right].
  unfold json. cbn [body]. destruct b as [pedido |]; [| now right; right].
  right. left. exists pedido. reflexivity.
Qed.

(** X11. The retry loop never raises and never makes more than its
    attempts: fetching an order sends between one and three requests, all
    for that order, whatever the transport answers. *)
Theorem fetch_pedido_bounded (order_id : value) (w : world) :
  (forall e, fst (fetch_pedido order_id 3 w) <> Raise e) /\
  exists n : nat,
    (1 <= n <= 3)%nat /\
    sent (snd (fetch_pedido order_id 3 w))
    = sent w ++ repeat (OrderDetails order_id) n.
Proof.
  assert (Hgen : forall attempts w,
            (forall e, fst (fetch_pedido order_id attempts w) <> Raise e) /\
            exists n : nat,
              (n <= attempts)%nat /\ (1 <= attempts -> 1 <= n)%nat /\
              sent (snd (fetch_pedido order_id attempts w))
              = sent w ++ repeat (OrderDetails order_id) n).
  { clear w. induction attempts as [| attempts IH]; intros w.
    - split; [discriminate |]. exists O. cbn. rewrite app_nil_r.
      split; [lia |]. split; [lia | reflexivity].
    - destruct (fetch_pedido_attempt order_id attempts w) as [-> | [[pedido ->] | ->]].
      + split; [discriminate |]. exists 1%nat. cbn. split; [lia |]. split; [lia | reflexivity].
      + split; [discriminate |]. exists 1%nat. cbn. split; [lia |]. split; [lia | reflexivity].
      + destruct (IH (advance (OrderDetails order_id) w)) as [Hno (n & Hn & _ & Hs)].
        split; [exact Hno |]. exists (S n). split; [lia |]. split; [lia |].
        rewrite Hs. cbn [advance sent repeat]. now rewrite <- app_assoc. }
  destruct (Hgen 3%nat w) as [Hno (n & Hn & H1 & Hs)].
  split; [exact Hno |]. exists n. split; [lia | exact Hs].
Qed.

(** X12. The first reply with status 200 and a JSON body ends the retry
    loop: after fewer than three failed attempts, the order's document is
    returned as received, and no further attempt is made. *)
Theorem fetch_pedido_first_success (order_id : value) (w : world)
        (failed : list reply) (pedido : value) (rest : list reply) :
  pending w = failed ++ Resp (mkresp 200 (Some pedido)) :: rest ->
  Forall (fun r => detail_fails r = true) failed ->
  (length failed < 3)%nat ->
  fetch_pedido order_id 3 w
  = (Ret pedido,
     mkworld rest (sent w ++ repeat (OrderDetails order_id) (S (length failed)))
             (clock w) (reads w)).
Proof.
  generalize 3%nat as attempts. revert w.
  induction failed as [| r failed IH]; intros w attempts Hp Hf Hlen.
  - destruct attempts as [| attempts]; [inversion Hlen |].
    rewrite (fetch_pedido_fetched order_id attempts w 200 pedido rest Hp eq_refl).
    unfold advance. rewrite Hp. reflexivity.
  - destruct attempts as [| attempts]; [inversion Hlen |].
    inversion Hf as [| ? ? Hr Hf']; subst.
    rewrite (fetch_pedido_failed order_id attempts w r _ Hp Hr).
    rewrite (IH (advance (OrderDetails order_id) w) attempts).
    + cbn [advance sent clock reads length repeat]. now rewrite <- app_assoc.
    + cbn [advance pending]. rewrite Hp. reflexivity.
    + exact Hf'.
    + cbn [length] in Hlen. lia.
Qed.

Lemma fetch_pedido_first_success_witness :
  fetch_pedido (VStr "A")  3
    (FetchClaims.script [ConnError; Resp (mkresp 500 None);
                         Resp (mkresp 200 (Some FetchClaims.pedido_A)); ConnError])
  = (Ret FetchClaims.pedido_A,
     mkworld [ConnError] ([] ++ repeat (OrderDetails (VStr "A")) 3)
             (fun _ => FetchClaims.noon_utc) O).
Proof.
  apply (fetch_pedido_first_success (VStr "A")
           (FetchClaims.script [ConnError; Resp (mkresp 500 None);
                                Resp (mkresp 200 (Some FetchClaims.pedido_A)); ConnError])
           [ConnError; Resp (mkresp 500 None)] FetchClaims.pedido_A [ConnError]).
  - reflexivity.
  - repeat constructor.
  - cbn. lia.
Defined.

(** *** The records *)

Section Records.

Variable fromisoformat : string -> exn + datetime.

(** A record as [coletar_itens] builds it: the order's identifier, which
    is non-empty; the time of extraction, a string; the creation date, a
    string or [None]. *)
Definition well_formed_record (rec : record) : Prop :=
  (exists oid, dict_get rec "orderId" = Some oid /\ truthy oid = true) /\
  (exists s, dict_get rec "data_extracao" = Some (VStr s)) /\
  (dict_get rec "creationDate" = Some VNone \/
   exists s, dict_get rec "creationDate" = Some (VStr s)).

Lemma converter_brasil_value data_iso cd :
  converter_brasil fromisoformat data_iso = inr cd ->
  cd = VNone \/ exists s, cd = VStr s.
Proof.
  unfold converter_brasil. destruct (negb (truthy data_iso)); [intros [= <-]; now left |].
  destruct data_iso; try discriminate.
  destruct (fromisoformat (replace_Z s)) as [| t]; [discriminate |].
  destruct (astimezone t BRT) as [| t']; [discriminate |].
  intros [= <-]. right. eauto.
Qed.

Lemma add_item_well_formed cd oid registros item :
  truthy oid = true -> (cd = VNone \/ exists s, cd = VStr s) ->
  Forall well_formed_record registros ->
  returns (add_item cd oid registros item) (Forall well_formed_record).
Proof.
  intros Hoid Hcd Hregs. unfold add_item.
  repeat (eapply returns_bind; [apply returns_any | intros ? _]).
  apply returns_ret. apply Forall_app. split; [exact Hregs |].
  constructor; [| constructor]. split; [| split].
  - exists oid. split; [reflexivity | exact Hoid].
  - eexists. reflexivity.
  - destruct Hcd as [-> | [s ->]]; [now left | right; eauto].
Qed.

Lemma collect_order_well_formed registros resumo :
  Forall well_formed_record registros ->
  returns (collect_order fromisoformat registros resumo) (Forall well_formed_record).
Proof.
  intros Hregs. unfold collect_order.
  eapply returns_bind; [apply returns_any | intros order_id _].
  destruct (truthy order_id) eqn:Hoid; cbn [negb]; [| now apply returns_ret].
  eapply returns_bind; [apply returns_any | intros pedido _].
  destruct (negb (truthy pedido)); [now apply returns_ret |].
  eapply returns_bind; [apply returns_any | intros creationDate _].
  eapply (returns_bind _ _ (fun cd => cd = VNone \/ exists s, cd = VStr s)).
  { apply returns_lift. intros cd Hcd. eapply converter_brasil_value, Hcd. }
  intros cd Hcd.
  repeat (eapply returns_bind; [apply returns_any | intros ? _]).
  apply returns_for_each; [| exact Hregs].
  intros s x Hs. now apply add_item_well_formed.
Qed.


Lemma collect_order_unreadable_date
      (registros : list record) (resumo pedido : list (string * value))
      (s : string) (e : exn) (w : world) (rest : list reply) :
  truthy (get_default resumo "orderId" VNone) = true ->
  pending w = Resp (mkresp 200 (Some (VDict pedido))) :: rest ->
  get_default pedido "creationDate" VNone = VStr s -> s <> "" ->
  fromisoformat (replace_Z s) = inl e ->
  collect_order fromisoformat registros (VDict resumo) w
  = (Raise e, advance (OrderDetails (get_default resumo "orderId" VNone)) w).
Proof.
  intros Hoid Hp Hdate Hs Hbad.
  unfold collect_order, bind at 1. unfold lift, py_get. unfold ret at 1.
  rewrite Hoid. cbn [negb]. unfold bind at 1.
  rewrite (fetch_pedido_fetched _ 2 w 200 (VDict pedido) rest Hp eq_refl).
  assert (Htr : truthy (VDict pedido) = true).
  { destruct pedido; [discriminate | reflexivity]. }
  rewrite Htr. cbn [negb]. unfold bind, lift, py_get. unfold ret at 1.
  rewrite Hdate. unfold converter_brasil.
  assert (Hts : truthy (VStr s) = true).
  { cbn. destruct (String.eqb_spec s ""); [contradiction | reflexivity]. }
  rewrite Hts. cbn [negb]. rewrite Hbad. reflexivity.
Qed.

(** X14. Nothing handles a creation date that cannot be read: when the
    document of the first order of a page holds, as its creation date, a
    non-empty string that [fromisoformat] rejects, the page loop ends on
    that exception right after the detail request, whatever it had
    collected. *)
Theorem unreadable_creation_date_ends_run
        (i_utc f_utc : datetime) (registros : list record) (pagina : Z) (fuel : nat)
        (page resumo pedido : list (string * value)) (more : list value)
        (s : string) (e : exn) (w : world) (rest : list reply) :
  pending w = Resp (mkresp 200 (Some (VDict page)))
              :: Resp (mkresp 200 (Some (VDict pedido))) :: rest ->
  get_default page "list" (VList []) = VList (VDict resumo :: more) ->
  truthy (get_default resumo "orderId" VNone) = true ->
  get_default pedido "creationDate" VNone = VStr s -> s <> "" ->
  fromisoformat (replace_Z s) = inl e ->
  while_true (S fuel) (collect_page fromisoformat i_utc f_utc) (registros, pagina) w
  = (Raise e,
     mkworld rest
       (sent w ++ [OrderList i_utc f_utc pagina;
                   OrderDetails (get_default resumo "orderId" VNone)])
       (clock w) (reads w)).
Proof.
  intros Hp Hlist Hoid Hdate Hs Hbad.
  cbn [while_true]. unfold bind at 1. rewrite collect_page_unfold.
  unfold bind at 1. unfold requests_get. rewrite Hp. cbn [tail].
  set (w1 := mkworld _ _ _ _).
  unfold after_page. cbn [status_code negb Z.eqb Pos.eqb].
  unfold bind at 1. unfold json. cbn [body]. unfold ret at 1.
  unfold bind at 1. unfold lift, py_get. rewrite Hlist.
  unfold ret at 1. cbn [truthy negb].
  unfold bind at 1. cbn [py_iter]. unfold ret at 1.
  unfold bind at 1. cbn [for_each]. unfold bind at 1.
  rewrite (collect_order_unreadable_date registros resumo pedido s e w1 rest Hoid
             eq_refl Hdate Hs Hbad).
  unfold advance, w1. cbn [pending sent clock reads tail].
  rewrite <- app_assoc. reflexivity.
Qed.

End Records.

Definition pedido_bad_date : list (string * value) :=
  [("creationDate", VStr "ontem"); ("items", VList [])].

Lemma unreadable_creation_date_ends_run_witness :
  while_true 1 (collect_page FetchClaims.rejects_all FetchClaims.window_start_utc
                             FetchClaims.window_end_utc) ([], 1)
             (FetchClaims.script [FetchClaims.order_page;
                                  FetchClaims.ok (VDict pedido_bad_date)])
  = (Raise ValueError,
     mkworld []
       ([] ++ [OrderList FetchClaims.window_start_utc FetchClaims.window_end_utc 1;
               OrderDetails (VStr "A")])
       (fun _ => FetchClaims.noon_utc) O).
Proof.
  apply (unreadable_creation_date_ends_run FetchClaims.rejects_all
           FetchClaims.window_start_utc FetchClaims.window_end_utc [] 1 O
           [("list", VList [VDict [("orderId", VStr "A")]])]
           [("orderId", VStr "A")] pedido_bad_date [] "ontem" ValueError
           (FetchClaims.script [FetchClaims.order_page;
                                FetchClaims.ok (VDict pedido_bad_date)]) []).
  - reflexivity.
  - reflexivity.
  - reflexivity.
  - reflexivity.
  - discriminate.
  - reflexivity.
Defined.


End PedidosMore.

(** ** The calendar, and the window of [gerar_intervalo] at any time *)
Module WindowMore.
Import Py DateTime Run RunFacts PedidosItens PedidosFacts.
Local Open Scope list_scope.

(** The month and the day [ord2ymd] reads off the day of the year. *)
Definition month_day (leapyear : bool) (n : Z) : Z * Z :=
  let m := Z.shiftr (n + 50) 5 in
  let preceding := DAYS_BEFORE_MONTH m + (if Z.ltb 2 m && leapyear then 1 else 0) in
  if Z.ltb n preceding then
    (m - 1,
     n - (preceding - (DAYS_IN_MONTH (m - 1)
                       + (if Z.eqb (m - 1) 2 && leapyear then 1 else 0))) + 1)
  else (m, n - preceding + 1).

Definition month_day_ok (leapyear : bool) (n : Z) : bool :=
  let '(m, d) := month_day leapyear n in
  Z.eqb (DAYS_BEFORE_MONTH m + (if Z.ltb 2 m && leapyear then 1 else 0) + d) (n + 1).

Definition date_ordinal (ymd : Z * Z * Z) : Z :=
  let '(y, m, d) := ymd in ymd2ord y m d.

(** The seconds since midnight, and the fields of a time of day. *)
Definition time_of_day (t : datetime) : Z :=
  hour t * 3600 + minute t * 60 + second t.

Definition in_day (t : datetime) : Prop :=
  0 <= hour t < 24 /\ 0 <= minute t < 60 /\ 0 <= second t < 60 /\
  0 <= microsecond t < 1000000.

(** The day of [t] in Brasilia, as an ordinal: the day before, in the
    first three hours of the UTC day. *)
Definition brt_ordinal (t : datetime) : Z :=
  toordinal t - (if Z.ltb (hour t) 3 then 1 else 0).

Lemma month_day_spec leapyear n :
  0 <= n < 365 -> month_day_ok leapyear n = true.
Proof.
  intros Hn.
  assert (Hall : forallb (fun k => month_day_ok true (Z.of_nat k)
                                   && month_day_ok false (Z.of_nat k))
                         (seq 0 365) = true) by (vm_compute; reflexivity).
  rewrite forallb_forall in Hall. specialize (Hall (Z.to_nat n)).
  rewrite Z2Nat.id in Hall by lia.
  assert (Hin : In (Z.to_nat n) (seq 0 365)) by (apply in_seq; lia).
  apply Hall in Hin. apply andb_prop in Hin. destruct Hin as [Ht Hf].
  now destruct leapyear.
Qed.

(** The year numbered from its place in the cycles of 400, 100 and 4
    years. *)
Lemma year_parts a b c e :
  0 <= b <= 3 -> 0 <= c <= 24 -> 0 <= e <= 3 ->
  days_before_year (400 * a + 100 * b + 4 * c + e + 1)
  = DI400Y * a + DI100Y * b + DI4Y * c + 365 * e /\
  is_leap (400 * a + 100 * b + 4 * c + e + 1)
  = Z.eqb e 3 && (negb (Z.eqb c 24) || Z.eqb b 3).
Proof.
  intros Hb Hc He. split.
  - unfold days_before_year, DI400Y, DI100Y, DI4Y.
    Z.to_euclidean_division_equations. lia.
  - unfold is_leap.
    destruct (Z.eqb_spec e 3) as [-> | He3];
      destruct (Z.eqb_spec c 24) as [-> | Hc24];
      destruct (Z.eqb_spec b 3) as [-> | Hb3]; cbn [negb orb andb];
      repeat match goal with
             | |- context [Z.eqb ?x 0] => destruct (Z.eqb_spec x 0)
             end; cbn [negb orb andb]; try reflexivity; exfalso;
      Z.to_euclidean_division_equations; lia.
Qed.

Lemma ord2ymd_parts n :
  let n0 := n - 1 in
  let a := n0 / DI400Y in let r400 := n0 mod DI400Y in
  let b := r400 / DI100Y in let r100 := r400 mod DI100Y in
  let c := r100 / DI4Y in let r4 := r100 mod DI4Y in
  let e := r4 / 365 in let r1 := r4 mod 365 in
  let y := a * 400 + 1 + b * 100 + c * 4 + e in
  ord2ymd n
  = if Z.eqb e 4 || Z.eqb b 4 then (y - 1, 12, 31)
    else let '(m, d) := month_day (Z.eqb e 3 && (negb (Z.eqb c 24) || Z.eqb b 3)) r1 in
         (y, m, d).
Proof.
  unfold ord2ymd, month_day. cbv zeta.
  repeat match goal with
         | |- context [if ?b then _ else _] => destruct b
         end; reflexivity.
Qed.

(** [_ymd2ord] undoes [_ord2ymd], at every ordinal. *)
Lemma ordinal_round_trip n : date_ordinal (ord2ymd n) = n.
Proof.
  rewrite ord2ymd_parts. cbv zeta.
  set (a := (n - 1) / DI400Y). set (r400 := (n - 1) mod DI400Y).
  set (b := r400 / DI100Y). set (r100 := r400 mod DI100Y).
  set (c := r100 / DI4Y). set (r4 := r100 mod DI4Y).
  set (e := r4 / 365). set (r1 := r4 mod 365).
  assert (H400 : n - 1 = DI400Y * a + r400 /\ 0 <= r400 < DI400Y).
  { split; [apply Z.div_mod; discriminate | apply Z.mod_pos_bound; reflexivity]. }
  assert (H100 : r400 = DI100Y * b + r100 /\ 0 <= r100 < DI100Y).
  { split; [apply Z.div_mod; discriminate | apply Z.mod_pos_bound; reflexivity]. }
  assert (H4 : r100 = DI4Y * c + r4 /\ 0 <= r4 < DI4Y).
  { split; [apply Z.div_mod; discriminate | apply Z.mod_pos_bound; reflexivity]. }
  assert (H1 : r4 = 365 * e + r1 /\ 0 <= r1 < 365).
  { split; [apply Z.div_mod; discriminate | apply Z.mod_pos_bound; reflexivity]. }
  clearbody a r400 b r100 c r4 e r1. unfold DI400Y, DI100Y, DI4Y in *.
  destruct (Z.eqb_spec b 4) as [Hb | Hb].
  - rewrite orb_true_r. cbn [date_ordinal]. unfold ymd2ord, days_before_month.
    destruct (year_parts a 3 24 3 ltac:(lia) ltac:(lia) ltac:(lia)) as [Hd Hl].
    replace (a * 400 + 1 + b * 100 + c * 4 + e - 1)
      with (400 * a + 100 * 3 + 4 * 24 + 3 + 1) by lia.
    rewrite Hd, Hl. change (DAYS_BEFORE_MONTH 12) with 334.
    change (Z.ltb 2 12 && (Z.eqb 3 3 && (negb (Z.eqb 24 24) || Z.eqb 3 3))) with true.
    unfold DI400Y, DI100Y, DI4Y. lia.
  - destruct (Z.eqb_spec e 4) as [He | He]; cbn [orb].
    + cbn [date_ordinal]. unfold ymd2ord, days_before_month.
      destruct (year_parts a b c 3 ltac:(lia) ltac:(lia) ltac:(lia)) as [Hd Hl].
      replace (a * 400 + 1 + b * 100 + c * 4 + e - 1)
        with (400 * a + 100 * b + 4 * c + 3 + 1) by lia.
      rewrite Hd, Hl.
      replace (Z.eqb c 24) with false by (symmetry; apply Z.eqb_neq; lia).
      change (DAYS_BEFORE_MONTH 12) with 334.
      change (Z.ltb 2 12 && (Z.eqb 3 3 && (negb false || Z.eqb b 3))) with true.
      unfold DI400Y, DI100Y, DI4Y. lia.
    + destruct (year_parts a b c e ltac:(lia) ltac:(lia) ltac:(lia)) as [Hd Hl].
      pose proof (month_day_spec (Z.eqb e 3 && (negb (Z.eqb c 24) || Z.eqb b 3)) r1
                    (proj2 H1)) as Hmd.
      unfold month_day_ok in Hmd.
      destruct (month_day _ r1) as [m d]. cbn [date_ordinal].
      apply Z.eqb_eq in Hmd.
      unfold ymd2ord, days_before_month.
      replace (a * 400 + 1 + b * 100 + c * 4 + e)
        with (400 * a + 100 * b + 4 * c + e + 1) by lia.
      rewrite Hd, Hl. unfold DI400Y, DI100Y, DI4Y. lia.
Qed.

(** An addition that stays within the calendar: the date of the sum is the
    ordinal moved by the days and the carry of the seconds, its time the
    seconds left. *)
Lemma add_spec (t : datetime) (dd ds : Z) :
  in_day t ->
  0 < toordinal t + dd + (time_of_day t + ds) / 86400 <= MAXORDINAL ->
  exists t',
    add t dd ds 0 = inr t' /\
    toordinal t' = toordinal t + dd + (time_of_day t + ds) / 86400 /\
    time_of_day t' = (time_of_day t + ds) mod 86400 /\
    in_day t' /\ microsecond t' = microsecond t /\ utcoffset t' = utcoffset t.
Proof.
  intros (Hh & Hmi & Hs & Hus) Ho. unfold add. unfold time_of_day in *.
  rewrite !Z.add_0_r, (Z.div_small (microsecond t)), (Z.mod_small (microsecond t)) by lia.
  rewrite Z.add_0_r.
  set (s := hour t * 3600 + minute t * 60 + second t + ds) in *.
  set (o := toordinal t + dd + s / 86400) in *.
  replace (Z.ltb 0 o && Z.leb o MAXORDINAL) with true
    by (symmetry; apply andb_true_intro; split; [apply Z.ltb_lt | apply Z.leb_le]; lia).
  pose proof (ordinal_round_trip o) as Hrt.
  destruct (ord2ymd o) as [[y m] d]. cbn [date_ordinal] in Hrt.
  eexists. split; [reflexivity |].
  unfold toordinal, in_day.
  cbn [year month day hour minute second microsecond utcoffset].
  assert (Hmod : 0 <= s mod 86400 < 86400) by (apply Z.mod_pos_bound; lia).
  clearbody s o. repeat split; try assumption; try lia;
    Z.to_euclidean_division_equations; lia.
Qed.

(** [astimezone] of a UTC reading to Brasilia: three hours earlier. *)
Lemma astimezone_brt (t : datetime) :
  utcoffset t = 0 -> in_day t -> 0 < brt_ordinal t -> toordinal t <= MAXORDINAL ->
  exists agora,
    astimezone t BRT = inr agora /\ toordinal agora = brt_ordinal t /\
    time_of_day agora = (time_of_day t - 10800) mod 86400 /\
    in_day agora /\ microsecond agora = microsecond t /\ utcoffset agora = BRT.
Proof.
  intros Hoff Hday Ho Hmax. unfold astimezone. rewrite Hoff. change (- 0) with 0.
  assert (Hs : 0 <= time_of_day t < 86400) by (unfold in_day, time_of_day in *; lia).
  assert (Hb : brt_ordinal t = toordinal t + 0 + (time_of_day t + BRT) / 86400).
  { unfold brt_ordinal, BRT. unfold in_day, time_of_day in *.
    destruct (Z.ltb_spec (hour t) 3); Z.to_euclidean_division_equations; lia. }
  assert (Hbo : brt_ordinal t <= toordinal t).
  { unfold brt_ordinal. destruct (Z.ltb (hour t) 3); lia. }
  destruct (add_spec t 0 0 Hday) as (u & -> & Hou & Htu & Hdu & Hmu & Hfu).
  { rewrite Z.add_0_r, Z.div_small by lia. lia. }
  rewrite Z.add_0_r, Z.div_small in Hou by lia.
  rewrite Z.add_0_r, Z.mod_small in Htu by lia.
  assert (Hu' : toordinal (replace_tzinfo u BRT) = toordinal t /\
                time_of_day (replace_tzinfo u BRT) = time_of_day t /\
                in_day (replace_tzinfo u BRT) /\
                microsecond (replace_tzinfo u BRT) = microsecond t).
  { unfold toordinal, time_of_day, in_day, replace_tzinfo in *.
    cbn [year month day hour minute second microsecond utcoffset]. lia. }
  destruct Hu' as (Ho' & Ht' & Hd' & Hm').
  destruct (add_spec (replace_tzinfo u BRT) 0 BRT Hd') as (agora & -> & Hoa & Hta & Hda & Hma & Hfa).
  { rewrite Ho', Ht', <- Hb. lia. }
  exists agora. split; [reflexivity |].
  rewrite Ho', Ht' in Hoa. rewrite Ht' in Hta. rewrite Hm' in Hma.
  split; [congruence |]. split; [exact Hta |]. split; [exact Hda |].
  split; [exact Hma | exact Hfa].
Qed.

(** The window of [gerar_intervalo], by the day it is in Brasilia. *)
Lemma gerar_intervalo_spec (w : world) :
  utcoffset (clock w (reads w)) = 0 -> in_day (clock w (reads w)) ->
  4 < brt_ordinal (clock w (reads w)) -> toordinal (clock w (reads w)) <= MAXORDINAL ->
  exists inicio fim,
    gerar_intervalo w
    = (Ret (inicio, fim), mkworld (pending w) (sent w) (clock w) (S (reads w))) /\
    toordinal fim = brt_ordinal (clock w (reads w)) /\
    toordinal inicio = brt_ordinal (clock w (reads w)) - 4 /\
    (hour inicio, minute inicio, second inicio, microsecond inicio, utcoffset inicio)
    = (0, 0, 0, 0, BRT) /\
    (hour fim, minute fim, second fim, microsecond fim, utcoffset fim)
    = (23, 59, 59, 0, BRT).
Proof.
  intros Hoff Hday Ho Hmax.
  destruct (astimezone_brt _ Hoff Hday ltac:(lia) Hmax)
    as (agora & Hagora & Hoa & Hta & Hda & Hma & Hfa).
  assert (Hsa : 0 <= time_of_day agora < 86400).
  { rewrite Hta. apply Z.mod_pos_bound. lia. }
  assert (Hba : toordinal agora <= toordinal (clock w (reads w))).
  { rewrite Hoa. unfold brt_ordinal. destruct (Z.ltb _ 3); lia. }
  destruct (add_spec agora (-4) 0 Hda) as (back & Hback & Hob & _ & _ & _ & Hfb).
  { rewrite Z.add_0_r, Z.div_small by lia. lia. }
  rewrite Z.add_0_r, Z.div_small in Hob by lia.
  exists (replace_time back 0 0 0 0), (replace_time agora 23 59 59 0).
  split; [| split; [| split; [| split]]].
  - unfold gerar_intervalo, agora_brasil, bind, now_utc, lift.
    rewrite Hagora. unfold ret at 1. rewrite Hback. reflexivity.
  - exact Hoa.
  - change (toordinal (replace_time back 0 0 0 0)) with (toordinal back). lia.
  - cbn [replace_time hour minute second microsecond utcoffset]. now rewrite Hfb, Hfa.
  - cbn [replace_time hour minute second microsecond utcoffset]. now rewrite Hfa.
Qed.

(** [astimezone] of a time in Brasilia to UTC: three hours later. *)
Lemma astimezone_utc (t : datetime) :
  utcoffset t = BRT -> in_day t ->
  0 < toordinal t + (time_of_day t + 10800) / 86400 <= MAXORDINAL ->
  exists u,
    astimezone t 0 = inr u /\
    toordinal u = toordinal t + (time_of_day t + 10800) / 86400 /\
    time_of_day u = (time_of_day t + 10800) mod 86400 /\
    in_day u /\ utcoffset u = 0.
Proof.
  intros Hoff Hday Ho. unfold astimezone. rewrite Hoff. change (- BRT) with 10800.
  destruct (add_spec t 0 10800 Hday) as (u & -> & Hou & Htu & Hdu & Hmu & Hfu);
    [lia |].
  assert (Hsu : 0 <= time_of_day u < 86400).
  { rewrite Htu. apply Z.mod_pos_bound. lia. }
  assert (Hu' : toordinal (replace_tzinfo u 0) = toordinal u /\
                time_of_day (replace_tzinfo u 0) = time_of_day u /\
                in_day (replace_tzinfo u 0)).
  { unfold toordinal, time_of_day, in_day, replace_tzinfo in *.
    cbn [year month day hour minute second microsecond utcoffset]. lia. }
  destruct Hu' as (Ho' & Ht' & Hd').
  destruct (add_spec (replace_tzinfo u 0) 0 0 Hd') as (v & -> & Hov & Htv & Hdv & _ & Hfv).
  { rewrite Ho', Ht', Z.add_0_r, Z.div_small by lia. lia. }
  rewrite Ho', Ht', Z.add_0_r, Z.div_small in Hov by lia.
  rewrite Ht', Z.add_0_r, Z.mod_small in Htv by lia.
  exists v. split; [reflexivity |]. split; [lia |]. split; [congruence |].
  split; [exact Hdv | exact Hfv].
Qed.



End WindowMore.

(** ** The requests of [coletar_itens]: the pages and their window *)
Module RequestsMore.
Import Py DateTime Run RunFacts PedidosItens PedidosFacts WindowMore.
Local Open Scope list_scope.

(** The requests for a page of orders, among the requests of a log. *)
Definition is_order_list (q : request) : bool :=
  match q with OrderList _ _ _ => true | _ => false end.

Definition order_lists (log : list request) : list request :=
  List.filter is_order_list log.

(** The requests for the [k] pages from page [p] on. *)
Definition pages (i_utc f_utc : datetime) (p : Z) (k : nat) : list request :=
  map (fun j => OrderList i_utc f_utc (p + Z.of_nat j)) (seq 0 k).

(** A computation that asks for no page of orders. *)
Definition lists_nothing {A} (m : M A) : Prop :=
  forall w, exists log, sent (snd (m w)) = sent w ++ log /\ order_lists log = [].

Lemma order_lists_app l1 l2 : order_lists (l1 ++ l2) = order_lists l1 ++ order_lists l2.
Proof. apply List.filter_app. Qed.

Lemma lists_nothing_ret {A} (a : A) : lists_nothing (ret a).
Proof. intros w. exists []. now rewrite app_nil_r. Qed.

Lemma lists_nothing_raise {A} (e : exn) : lists_nothing (@raise A e).
Proof. intros w. exists []. now rewrite app_nil_r. Qed.

Lemma lists_nothing_lift {A} (r : exn + A) : lists_nothing (lift r).
Proof. destruct r; [apply lists_nothing_raise | apply lists_nothing_ret]. Qed.

Lemma lists_nothing_now_utc : lists_nothing now_utc.
Proof. intros w. exists []. cbn. now rewrite app_nil_r. Qed.

Lemma lists_nothing_details order_id : lists_nothing (requests_get (OrderDetails order_id)).
Proof.
  intros w. exists [OrderDetails order_id]. split; [| reflexivity].
  unfold requests_get. destruct (pending w) as [| [| r] rest]; reflexivity.
Qed.

Lemma lists_nothing_bind {A B} (m : M A) (k : A -> M B) :
  lists_nothing m -> (forall a, lists_nothing (k a)) -> lists_nothing (bind m k).
Proof.
  intros Hm Hk w. unfold bind. specialize (Hm w).
  destruct (m w) as [[a | e | |] w1]; cbn [snd] in *; try exact Hm.
  destruct Hm as (l1 & Hs1 & Hl1). destruct (Hk a w1) as (l2 & Hs2 & Hl2).
  exists (l1 ++ l2). rewrite Hs2, Hs1, app_assoc, order_lists_app, Hl1, Hl2. auto.
Qed.

Lemma lists_nothing_try {A} (m h : M A) :
  lists_nothing m -> lists_nothing h -> lists_nothing (try_except_request m h).
Proof.
  intros Hm Hh w. unfold try_except_request. specialize (Hm w).
  destruct (m w) as [[a | e | |] w1]; cbn [snd] in *; try exact Hm.
  destruct e; try exact Hm.
  destruct Hm as (l1 & Hs1 & Hl1). destruct (Hh w1) as (l2 & Hs2 & Hl2).
  exists (l1 ++ l2). rewrite Hs2, Hs1, app_assoc, order_lists_app, Hl1, Hl2. auto.
Qed.

Lemma lists_nothing_if {A} (b : bool) (m1 m2 : M A) :
  lists_nothing m1 -> lists_nothing m2 -> lists_nothing (if b then m1 else m2).
Proof. now destruct b. Qed.

Lemma lists_nothing_for_each {A S} (body : S -> A -> M S) (xs : list A) :
  (forall s x, lists_nothing (body s x)) -> forall s, lists_nothing (for_each xs body s).
Proof.
  intros Hb. induction xs as [| x xs IH]; intros s; cbn [for_each].
  - apply lists_nothing_ret.
  - apply lists_nothing_bind; [apply Hb | exact IH].
Qed.

Lemma pages_cons i_utc f_utc p k :
  OrderList i_utc f_utc p :: pages i_utc f_utc (p + 1) k = pages i_utc f_utc p (S k).
Proof.
  unfold pages. cbn [seq map]. rewrite Z.add_0_r. f_equal.
  rewrite <- seq_shift, map_map. apply map_ext. intros j. f_equal. lia.
Qed.

Section Paging.

Variable fromisoformat : string -> exn + datetime.

Lemma fetch_pedido_lists_nothing order_id attempts :
  lists_nothing (fetch_pedido order_id attempts).
Proof.
  induction attempts as [| attempts IH]; cbn [fetch_pedido]; [apply lists_nothing_ret |].
  apply lists_nothing_bind.
  - apply lists_nothing_try; [| apply lists_nothing_ret].
    apply lists_nothing_bind; [apply lists_nothing_details |]. intros r.
    apply lists_nothing_if; [| apply lists_nothing_ret].
    apply lists_nothing_bind; [| intros; apply lists_nothing_ret].
    unfold json. destruct (body r); [apply lists_nothing_ret | apply lists_nothing_raise].
  - intros [pedido |]; [apply lists_nothing_ret | exact IH].
Qed.

Lemma add_item_lists_nothing cd oid registros item :
  lists_nothing (add_item cd oid registros item).
Proof.
  unfold add_item.
  repeat (apply lists_nothing_bind; [apply lists_nothing_lift | intros ?]).
  apply lists_nothing_bind; [| intros; apply lists_nothing_ret].
  unfold agora_brasil.
  apply lists_nothing_bind; [apply lists_nothing_now_utc | intros; apply lists_nothing_lift].
Qed.

Lemma collect_order_lists_nothing registros resumo :
  lists_nothing (collect_order fromisoformat registros resumo).
Proof.
  unfold collect_order.
  apply lists_nothing_bind; [apply lists_nothing_lift | intros order_id].
  apply lists_nothing_if; [apply lists_nothing_ret |].
  apply lists_nothing_bind; [apply fetch_pedido_lists_nothing | intros pedido].
  apply lists_nothing_if; [apply lists_nothing_ret |].
  repeat (apply lists_nothing_bind; [apply lists_nothing_lift | intros ?]).
  apply lists_nothing_for_each. intros s x. apply add_item_lists_nothing.
Qed.

(** One round asks for its page, once, before anything else. *)
Lemma collect_page_log i_utc f_utc registros pagina w :
  exists log,
    sent (snd (collect_page fromisoformat i_utc f_utc (registros, pagina) w))
    = sent w ++ OrderList i_utc f_utc pagina :: log /\
    order_lists log = [].
Proof.
  assert (Hk : forall r, lists_nothing
            (if negb (Z.eqb (status_code r) 200) then ret (Break registros)
             else
               data <- json r ;;
               pedidos <- lift (py_get data "list" (VList [])) ;;
               if negb (truthy pedidos) then ret (Break registros)
               else
                 xs <- lift (py_iter pedidos) ;;
                 registros' <- for_each xs (collect_order fromisoformat) registros ;;
                 ret (Continue (registros', pagina + 1)))).
  { intros r. apply lists_nothing_if; [apply lists_nothing_ret |].
    apply lists_nothing_bind.
    { unfold json. destruct (body r); [apply lists_nothing_ret | apply lists_nothing_raise]. }
    intros data. apply lists_nothing_bind; [apply lists_nothing_lift | intros pedidos].
    apply lists_nothing_if; [apply lists_nothing_ret |].
    apply lists_nothing_bind; [apply lists_nothing_lift | intros xs].
    apply lists_nothing_bind; [| intros; apply lists_nothing_ret].
    apply lists_nothing_for_each. intros s x. apply collect_order_lists_nothing. }
  unfold collect_page. unfold bind at 1. unfold requests_get.
  destruct (pending w) as [| [| r] rest].
  - exists []. split; reflexivity.
  - exists []. split; reflexivity.
  - destruct (Hk r (mkworld (tail (Resp r :: rest))
                            (sent w ++ [OrderList i_utc f_utc pagina]) (clock w) (reads w)))
      as (log & Hs & Hl).
    exists log. split; [| exact Hl].
    rewrite Hs. cbn [sent]. now rewrite <- app_assoc.
Qed.

(** A round that goes on, goes on to the next page. *)
Lemma collect_page_next i_utc f_utc registros pagina :
  returns (collect_page fromisoformat i_utc f_utc (registros, pagina))
          (fun c => match c with
                    | Continue st => snd st = pagina + 1
                    | Break _ => True
                    end).
Proof.
  unfold collect_page.
  eapply returns_bind; [apply returns_any | intros r _].
  destruct (negb (Z.eqb (status_code r) 200)); [now apply returns_ret |].
  eapply returns_bind; [apply returns_any | intros data _].
  eapply returns_bind; [apply returns_any | intros pedidos _].
  destruct (negb (truthy pedidos)); [now apply returns_ret |].
  eapply returns_bind; [apply returns_any | intros xs _].
  eapply returns_bind; [apply returns_any | intros regs _].
  now apply returns_ret.
Qed.

Lemma page_loop_log i_utc f_utc (fuel : nat) :
  forall registros pagina w,
  exists log k,
    sent (snd (while_true fuel (collect_page fromisoformat i_utc f_utc)
                          (registros, pagina) w))
    = sent w ++ log /\
    order_lists log = pages i_utc f_utc pagina k /\
    (k <= fuel)%nat /\ (1 <= fuel -> 1 <= k)%nat.
Proof.
  induction fuel as [| fuel IH]; intros registros pagina w.
  - exists [], O. cbn. rewrite app_nil_r. repeat split; lia.
  - cbn [while_true]. unfold bind.
    destruct (collect_page_log i_utc f_utc registros pagina w) as (log & Hs & Hl).
    pose proof (collect_page_next i_utc f_utc registros pagina w) as Hnext.
    destruct (collect_page fromisoformat i_utc f_utc (registros, pagina) w)
      as [[[[registros' pagina'] | res] | e | |] w1]; cbn [snd] in Hs.
    + specialize (Hnext _ _ eq_refl). cbn [snd] in Hnext. subst pagina'.
      destruct (IH registros' (pagina + 1) w1) as (log' & k & Hs' & Hl' & Hk & _).
      exists ((OrderList i_utc f_utc pagina :: log) ++ log'), (S k).
      rewrite Hs', Hs, <- app_assoc.
      split; [reflexivity |]. split; [| lia].
      rewrite order_lists_app. cbn [order_lists List.filter is_order_list].
      fold (order_lists log). rewrite Hl, Hl'. cbn [app]. apply pages_cons.
    + exists (OrderList i_utc f_utc pagina :: log), 1%nat.
      split; [exact Hs |]. split; [| lia].
      cbn [order_lists List.filter is_order_list]. fold (order_lists log). rewrite Hl.
      unfold pages. cbn. now rewrite Z.add_0_r.
    + exists (OrderList i_utc f_utc pagina :: log), 1%nat.
      split; [exact Hs |]. split; [| lia].
      cbn [order_lists List.filter is_order_list]. fold (order_lists log). rewrite Hl.
      unfold pages. cbn. now rewrite Z.add_0_r.
    + exists (OrderList i_utc f_utc pagina :: log), 1%nat.
      split; [exact Hs |]. split; [| lia].
      cbn [order_lists List.filter is_order_list]. fold (order_lists log). rewrite Hl.
      unfold pages. cbn. now rewrite Z.add_0_r.
    + exists (OrderList i_utc f_utc pagina :: log), 1%nat.
      split; [exact Hs |]. split; [| lia].
      cbn [order_lists List.filter is_order_list]. fold (order_lists log). rewrite Hl.
      unfold pages. cbn. now rewrite Z.add_0_r.
Qed.



End Paging.


End RequestsMore.
